(** * SettingsDB: a shallow embedding of [src/lib/database/settingdb.js]

    The settings store of the bot is a single [SettingsDB] instance holding
    three maps (global settings, per-group settings, update timestamps) and
    three persistence flags.  This file embeds the class in Rocq and proves
    the properties of the natural-language specification about it.

    Modelling conventions.
    - The values that callers hand to the store are the inductive type
      [value]: [undefined], [null], booleans, numbers, strings, plain objects
      and arrays.  Numbers are only ever compared with [0] and [1] or tested
      for truthiness by the code, so a number is an integer or [NaN].  A
      plain object is given by its own enumerable properties; its prototype
      is [Object.prototype], that of an array [Array.prototype].  Callers
      keep no reference to what they hand over and do not modify what the
      store hands out.
    - The objects that the store uses as dictionaries ([globalSettings],
      the object of each group, [defaults]) are records [dict] of their own
      properties and their prototype.  [obj[key]] reads through the
      prototype chain, so it can yield a built-in ([reading]);
      [obj[key] = v] follows the chain too, where the only setter is that
      of [__proto__].  The names of [Object.prototype] and
      [Array.prototype] are those of ECMAScript 2023.  A [Map] is a finite
      map.
    - [new Date().toISOString()] and [Date.now()] read a clock; every entry
      point receives the reading [now] it observes, and an ISO-8601 string
      is represented by the instant (milliseconds) it denotes.
    - The text of a file is represented by what [JSON.parse] makes of it:
      either a settings document or text that does not parse.  A document
      that parses but has another shape than the persisted schema is not
      represented.
    - An [async] function is split at its awaits.  The part of [save] that
      runs before its first await is [save]; the suspended rest is the
      [job] stored in the world, resumed by [io_done].  The object that
      [save] builds for an external backend refers to the live settings
      objects until it is serialized: the job keeps these references
      ([capture]), and the statements that replace or drop a settings object
      ([load], [deleteGroup]) leave the job with the object as it then was.
      The return of [_remoteSave] and the resumption of [save] after it are
      one step.  [load] is taken as one uninterrupted step whose I/O results
      are given by an [io] record.
    - The driver modules ([pg], [mongodb], [mysql2]) are installed;
      constructing a pool or a client does not fail, connecting and creating
      the table can, and the awaits of one initialisation are one step.  A
      driver serializes the object it is given when it sends it.  A
      database or an HTTP endpoint holds the document it was last sent and
      returns it.
    - Event listeners are not run: [emit] appends to the list of emitted
      events.  [console.error] and [console.warn] append to a console log.
    - Timers, directory creation and the release of driver resources in
      [close] leave the store untouched and are left out; of [close] only
      its call of [save] is kept. *)

From Stdlib Require Import ZArith NArith String Ascii Bool List Lia.
From stdpp Require Import gmap strings list fin_maps pretty.

Local Open Scope string_scope.

(** ** JavaScript values *)

Set Warnings "-register-all".

Inductive value : Type :=
| JUndefined
| JNull
| JBool (b : bool)
| JNum (z : Z)
| JNaN
| JStr (s : string)
| JObj (props : gmap string value)
| JArr (items : list value).

(** What a property read can reach through a prototype chain besides the
    values of the callers. *)
Inductive builtin :=
| ObjectPrototype                 (* the object Object.prototype *)
| ObjectMember (name : string)    (* the function Object.prototype[name] *)
| ArrayMember (name : string).    (* the function Array.prototype[name] *)

Inductive reading :=
| Data (v : value)
| Builtin (b : builtin).

Inductive js_type :=
  TUndefined | TObject | TBoolean | TNumber | TString | TFunction.

Definition typeof (v : value) : js_type :=
  match v with
  | JUndefined => TUndefined
  | JNull | JObj _ | JArr _ => TObject
  | JBool _ => TBoolean
  | JNum _ | JNaN => TNumber
  | JStr _ => TString
  end.

Definition typeof_reading (r : reading) : js_type :=
  match r with
  | Data v => typeof v
  | Builtin ObjectPrototype => TObject
  | Builtin _ => TFunction
  end.

Definition is_boolean (r : reading) : bool :=
  match typeof_reading r with TBoolean => true | _ => false end.

(** [r !== undefined] *)
Definition defined (r : reading) : bool :=
  match r with Data JUndefined => false | _ => true end.

(** [Boolean(v)] *)
Definition Boolean (v : value) : bool :=
  match v with
  | JUndefined | JNull | JNaN => false
  | JBool b => b
  | JNum z => negb (z =? 0)%Z
  | JStr s => negb (s =? "")
  | JObj _ | JArr _ => true
  end.

Definition truthy (r : reading) : bool :=
  match r with Data v => Boolean v | Builtin _ => true end.

(** [a || b] *)
Definition js_or (a b : reading) : reading := if truthy a then a else b.

(** ** Strings *)

Definition lower_ascii (c : ascii) : ascii :=
  let n := nat_of_ascii c in
  if (65 <=? n)%nat && (n <=? 90)%nat then ascii_of_nat (n + 32) else c.

Definition upper_ascii (c : ascii) : ascii :=
  let n := nat_of_ascii c in
  if (97 <=? n)%nat && (n <=? 122)%nat then ascii_of_nat (n - 32) else c.

(** [s.toLowerCase()], on the ASCII letters. *)
Fixpoint toLowerCase (s : string) : string :=
  match s with
  | EmptyString => EmptyString
  | String c r => String (lower_ascii c) (toLowerCase r)
  end.

(** [s.includes(c)] for a one-character needle. *)
Fixpoint includes_char (c : ascii) (s : string) : bool :=
  match s with
  | EmptyString => false
  | String d r => Ascii.eqb d c || includes_char c r
  end.

(** [s.endsWith(suffix)] *)
Fixpoint endsWith (suffix s : string) : bool :=
  String.eqb s suffix ||
  match s with
  | EmptyString => false
  | String _ r => endsWith suffix r
  end.

(** [list.includes(x)] for a list of strings. *)
Definition includes (l : list string) (x : string) : bool :=
  existsb (String.eqb x) l.

(** ** toBool (lines 15-22) *)

Definition toBool (r : reading) : bool :=
  match r with
  | Data (JBool true) | Data (JNum 1) => true
  | Data (JBool false) | Data (JNum 0) => false
  | Data (JStr s) => includes ["true"; "1"; "yes"; "on"] (toLowerCase s)
  | _ => truthy r
  end.

(** ** Objects used as dictionaries *)

(** The string-named properties of [Object.prototype] other than the
    accessor [__proto__]; each holds a function. *)
Definition object_prototype_names : list string :=
  [ "constructor"; "__defineGetter__"; "__defineSetter__"; "hasOwnProperty";
    "__lookupGetter__"; "__lookupSetter__"; "isPrototypeOf";
    "propertyIsEnumerable"; "toString"; "valueOf"; "toLocaleString" ].

(** The string-named properties of [Array.prototype] other than [length]. *)
Definition array_prototype_names : list string :=
  [ "constructor"; "at"; "concat"; "copyWithin"; "fill"; "find"; "findIndex";
    "findLast"; "findLastIndex"; "lastIndexOf"; "pop"; "push"; "reverse";
    "shift"; "unshift"; "slice"; "sort"; "splice"; "includes"; "indexOf";
    "join"; "keys"; "entries"; "values"; "forEach"; "filter"; "flat";
    "flatMap"; "map"; "every"; "some"; "reduce"; "reduceRight";
    "toLocaleString"; "toString"; "toReversed"; "toSorted"; "toSpliced";
    "with" ].

Inductive prototype :=
| ProtoNull                           (* Object.create(null) *)
| ProtoObject                         (* a literal {} or a parsed object *)
| ProtoPlain (m : gmap string value)  (* a plain object of a caller *)
| ProtoArray (l : list value).        (* an array of a caller *)

Record dict := {
  own : gmap string value;    (* own enumerable properties *)
  proto : prototype
}.

(** [{}] *)
Definition empty_object : dict := {| own := ∅; proto := ProtoObject |}.

(** [Object.create(null)] *)
Definition null_object : dict := {| own := ∅; proto := ProtoNull |}.

(** An object that [JSON.parse] built, or a literal. *)
Definition plain (m : gmap string value) : dict :=
  {| own := m; proto := ProtoObject |}.

(** [Object.prototype[k]] for [k] other than [__proto__]. *)
Definition object_member (k : string) : reading :=
  if bool_decide (k ∈ object_prototype_names) then Builtin (ObjectMember k)
  else Data JUndefined.

(** The index properties of an array. *)
Definition array_items (l : list value) : gmap string value :=
  list_to_map (imap (λ i x, (pretty i, x)) l).

(** [l[k]] on an array: index properties, [length], then the prototypes. *)
Definition array_member (l : list value) (k : string) : reading :=
  match array_items l !! k with
  | Some v => Data v
  | None =>
      if k =? "length" then Data (JNum (Z.of_nat (length l)))
      else if bool_decide (k ∈ array_prototype_names) then Builtin (ArrayMember k)
      else object_member k
  end.

(** What [o[k]] gives when [k] is no own property of [o] and [o] has the
    prototype [p].  The getter of [__proto__] answers with the prototype of
    the object that was asked. *)
Definition inherited (p : prototype) (k : string) : reading :=
  match p with
  | ProtoNull => Data JUndefined
  | ProtoObject =>
      if k =? "__proto__" then Builtin ObjectPrototype else object_member k
  | ProtoPlain m =>
      match m !! k with
      | Some v => Data v
      | None => if k =? "__proto__" then Data (JObj m) else object_member k
      end
  | ProtoArray l =>
      if k =? "__proto__" then Data (JArr l) else array_member l k
  end.

(** [obj[key]] *)
Definition prop (obj : dict) (key : string) : reading :=
  match own obj !! key with
  | Some v => Data v
  | None => inherited (proto obj) key
  end.

(** Whether [obj.__proto__] is the accessor of [Object.prototype]: no
    object on the chain has a property of its own with that name, and the
    chain ends in [Object.prototype]. *)
Definition has_proto_accessor (obj : dict) : bool :=
  match own obj !! "__proto__" with
  | Some _ => false
  | None =>
      match proto obj with
      | ProtoNull => false
      | ProtoObject => true
      | ProtoPlain m => bool_decide (m !! "__proto__" = None)
      | ProtoArray _ => true
      end
  end.

(** [obj[key] = v].  Every inherited data property is writable, so the
    assignment creates or updates an own property, unless it reaches the
    setter of [__proto__]: that one replaces the prototype when [v] is an
    object or [null] and does nothing otherwise. *)
Definition assign (obj : dict) (key : string) (v : value) : dict :=
  if (key =? "__proto__") && has_proto_accessor obj then
    match v with
    | JNull => {| own := own obj; proto := ProtoNull |}
    | JObj m => {| own := own obj; proto := ProtoPlain m |}
    | JArr l => {| own := own obj; proto := ProtoArray l |}
    | _ => obj
    end
  else {| own := <[key := v]> (own obj); proto := proto obj |}.

(** The own enumerable properties that [{ ...v }] copies. *)
Definition spread (v : value) : gmap string value :=
  match v with
  | JObj m => m
  | JArr l => array_items l
  | JStr s =>
      list_to_map
        (imap (λ i c, (pretty i, JStr (String c EmptyString)))
              (list_ascii_of_string s))
  | _ => ∅
  end.

Definition spread_reading (r : reading) : gmap string value :=
  match r with
  | Data v => spread v
  | Builtin _ => ∅
  end.

(** ** JSON

    [json v] is the value [JSON.parse (JSON.stringify v)] gives back: a
    property holding [undefined] is left out, [undefined] inside an array
    and [NaN] become [null]. *)

Definition json_property (f : value → value) (v : value) : option value :=
  match v with JUndefined => None | _ => Some (f v) end.

Fixpoint json (v : value) : value :=
  match v with
  | JUndefined | JNaN => JNull
  | JObj m => JObj (omap (json_property json) m)
  | JArr l => JArr (map json l)
  | _ => v
  end.

Definition json_object (m : gmap string value) : gmap string value :=
  omap (json_property json) m.

(** A value is JSON-serializable when [undefined] and [NaN] occur nowhere
    in it. *)
Inductive serializable : value → Prop :=
| ser_null : serializable JNull
| ser_bool b : serializable (JBool b)
| ser_num z : serializable (JNum z)
| ser_str s : serializable (JStr s)
| ser_obj m : (∀ k v, m !! k = Some v → serializable v) → serializable (JObj m)
| ser_arr l : Forall serializable l → serializable (JArr l).

(** ** Errors, events and the console *)

Inductive error :=
| UnsupportedProtocol (proto : string)
    (* Error(`Unsupported databaseUrl protocol: ${proto}`) *)
| InvalidArguments
    (* Error('Invalid arguments. Use set("pluginKey", value) or ...') *)
| ConfigNotObject
    (* Error('configObj must be an object') *)
| InvalidURL
    (* TypeError thrown by new URL(...) *)
| SyntaxError
    (* thrown by JSON.parse *)
| UnsupportedDbType
    (* Error('Unsupported DB type for remoteSave') *)
| TypeError
    (* reading a property of null: this._mongoDb.collection *)
| IOError.
    (* rejection of a file system, network or database operation *)

Inductive outcome (A : Type) :=
| Returned (a : A)
| Thrown (e : error).
Arguments Returned {A} a.
Arguments Thrown {A} e.

Inductive event :=
| EvUpdateGlobal (plugin : string) (v : value)
    (* emit('update', { scope: 'global', plugin, value }) *)
| EvUpdateGroup (jid plugin : string) (v : reading)
    (* emit('update', { scope: 'group', jid, plugin, value }) *)
| EvSaved
    (* emit('saved') *)
| EvDeleteGroup (jid : string).
    (* emit('deleteGroup', { jid }) *)

Definition is_update (e : event) : bool :=
  match e with
  | EvUpdateGlobal _ _ | EvUpdateGroup _ _ _ => true
  | _ => false
  end.

Inductive log_line :=
| LogLoadError (e : error)        (* console.error('settingsDB.load error:', err) *)
| LogBackedUp (path : string)     (* console.warn('Backed up corrupt settings file to', path) *)
| LogInitialSaveFailed (e : error)(* console.error('initial save failed', e) *)
| LogSaveError (e : error)        (* console.error('settingsDB.save error:', err) *)
| LogRemoteLoadFailed             (* console.warn('Remote load failed:', ...) *)
| LogDriverInitError.             (* console.error('Postgres init error:', e), 'MySQL init error:' *)

(** ** Persisted documents and the file system *)

(** The object [{ globalSettings, groupSettings, updateTimes }]; a field
    the parsed text does not have is [None]. *)
Record document := {
  doc_globalSettings : option (gmap string value);
  doc_groupSettings : option (gmap string (gmap string value));
  doc_updateTimes : option (gmap string (gmap string N))
}.

Inductive content :=
| Corrupt (raw : string)       (* text on which JSON.parse throws *)
| Document (d : document).     (* text of a settings document *)

(** ** Connection descriptors (lines 69-145) *)

(** [new URL(databaseUrl)], reduced to the two parts the code reads.  A
    descriptor that [new URL] rejects is not represented. *)
Record url := {
  protocol : string;     (* url.protocol.replace(':', '') *)
  pathname : string
}.

Inductive db_type := Postgres | Mongodb | Mysql | FileDb | Http.

(** ** The store instance and its surroundings *)

Record SettingsDB := {
  file : string;
  autosaveInterval : Z;
  _startupTime : N;
  databaseUrl : option url;
  _useDb : bool;
  _dbType : option db_type;
  _mongoDb : bool;                  (* whether this._mongoDb has been assigned *)
  globalSettings : dict;
  groupSettings : gmap string dict;
  updateTimes : gmap string (gmap string N);
  _dirty : bool;
  _saving : bool;
  _pendingSave : bool
}.

(** The object [obj] that [save] hands to [_remoteSave].  Its
    [globalSettings] and the values of its [groupSettings] are the settings
    objects themselves, not copies: [None] stands for an object that the
    store still uses, and that later assignments therefore still reach;
    [Some m] for one that the store has dropped since, with the properties
    it had then.  [updateTimes] is a copy. *)
Record capture := {
  cap_globalSettings : option (gmap string value);
  cap_groupSettings : gmap string (option (gmap string value));
  cap_updateTimes : gmap string (gmap string N)
}.

(** Where the call of [initClientsIfNeeded] stands when it suspends. *)
Inductive init_state :=
| InitDone                (* nothing to initialise, or nothing to wait for *)
| InitPending             (* the driver is connecting or creating its table *)
| InitFailed (e : error). (* [_initDbClients] threw before any await *)

(** The suspended part of a running [save]. *)
Inductive job :=
| WritingTmp (tmp : string) (text : document)
    (* at  await fs.promises.writeFile(tmp, JSON.stringify(obj, null, 2)) *)
| Renaming (tmp target : string)
    (* at  await fs.promises.rename(tmp, this.file) *)
| RemoteInit (obj : capture) (init : init_state)
    (* at  await this.initClientsIfNeeded()  in save (line 230) *)
| RemoteSaveInit (obj : capture) (init : init_state)
    (* at  await this.initClientsIfNeeded()  in _remoteSave (line 319) *)
| RemotePreparing (obj : capture) (target : option string)
    (* at  await fs.promises.mkdir(...)  of the file backend ([target] is
       the path), or inside a database driver that has been given [obj] and
       has not serialized it yet *)
| RemoteWriting (payload : document) (target : option string).
    (* at the write of the serialized object: writeFile(target, ...), the
       query or the request *)

Record world := {
  db : SettingsDB;
  disk : gmap string content;       (* the file system *)
  remote : option document;         (* the row or resource with id 'default' *)
  inflight : option job;            (* the save that is suspended, if any *)
  immediates : nat;                 (* queued setImmediate(() => this.save()) *)
  emitted : list event;             (* newest first *)
  console : list log_line;          (* newest first *)
  journal : list document           (* what was handed to the file system or
                                       to a backend for writing, newest first *)
}.

(** Field updates. *)

Definition set_file (x : string) (s : SettingsDB) : SettingsDB :=
  {| file := x; autosaveInterval := autosaveInterval s;
     _startupTime := _startupTime s; databaseUrl := databaseUrl s;
     _useDb := _useDb s; _dbType := _dbType s; _mongoDb := _mongoDb s;
     globalSettings := globalSettings s; groupSettings := groupSettings s;
     updateTimes := updateTimes s; _dirty := _dirty s; _saving := _saving s;
     _pendingSave := _pendingSave s |}.

Definition set_autosaveInterval (x : Z) (s : SettingsDB) : SettingsDB :=
  {| file := file s; autosaveInterval := x; _startupTime := _startupTime s;
     databaseUrl := databaseUrl s; _useDb := _useDb s; _dbType := _dbType s;
     _mongoDb := _mongoDb s;
     globalSettings := globalSettings s; groupSettings := groupSettings s;
     updateTimes := updateTimes s; _dirty := _dirty s; _saving := _saving s;
     _pendingSave := _pendingSave s |}.

Definition set_startupTime (x : N) (s : SettingsDB) : SettingsDB :=
  {| file := file s; autosaveInterval := autosaveInterval s;
     _startupTime := x; databaseUrl := databaseUrl s; _useDb := _useDb s;
     _dbType := _dbType s; _mongoDb := _mongoDb s;
     globalSettings := globalSettings s;
     groupSettings := groupSettings s; updateTimes := updateTimes s;
     _dirty := _dirty s; _saving := _saving s;
     _pendingSave := _pendingSave s |}.

Definition set_databaseUrl (x : option url) (s : SettingsDB) : SettingsDB :=
  {| file := file s; autosaveInterval := autosaveInterval s;
     _startupTime := _startupTime s; databaseUrl := x; _useDb := _useDb s;
     _dbType := _dbType s; _mongoDb := _mongoDb s;
     globalSettings := globalSettings s;
     groupSettings := groupSettings s; updateTimes := updateTimes s;
     _dirty := _dirty s; _saving := _saving s;
     _pendingSave := _pendingSave s |}.

Definition set_useDb (x : bool) (s : SettingsDB) : SettingsDB :=
  {| file := file s; autosaveInterval := autosaveInterval s;
     _startupTime := _startupTime s; databaseUrl := databaseUrl s;
     _useDb := x; _dbType := _dbType s; _mongoDb := _mongoDb s;
     globalSettings := globalSettings s;
     groupSettings := groupSettings s; updateTimes := updateTimes s;
     _dirty := _dirty s; _saving := _saving s;
     _pendingSave := _pendingSave s |}.

Definition set_dbType (x : option db_type) (s : SettingsDB) : SettingsDB :=
  {| file := file s; autosaveInterval := autosaveInterval s;
     _startupTime := _startupTime s; databaseUrl := databaseUrl s;
     _useDb := _useDb s; _dbType := x; _mongoDb := _mongoDb s;
     globalSettings := globalSettings s;
     groupSettings := groupSettings s; updateTimes := updateTimes s;
     _dirty := _dirty s; _saving := _saving s;
     _pendingSave := _pendingSave s |}.

Definition set_mongoDb (x : bool) (s : SettingsDB) : SettingsDB :=
  {| file := file s; autosaveInterval := autosaveInterval s;
     _startupTime := _startupTime s; databaseUrl := databaseUrl s;
     _useDb := _useDb s; _dbType := _dbType s; _mongoDb := x;
     globalSettings := globalSettings s;
     groupSettings := groupSettings s; updateTimes := updateTimes s;
     _dirty := _dirty s; _saving := _saving s;
     _pendingSave := _pendingSave s |}.

Definition set_globalSettings (x : dict) (s : SettingsDB) : SettingsDB :=
  {| file := file s; autosaveInterval := autosaveInterval s;
     _startupTime := _startupTime s; databaseUrl := databaseUrl s;
     _useDb := _useDb s; _dbType := _dbType s; _mongoDb := _mongoDb s;
     globalSettings := x;
     groupSettings := groupSettings s; updateTimes := updateTimes s;
     _dirty := _dirty s; _saving := _saving s;
     _pendingSave := _pendingSave s |}.

Definition set_groupSettings (x : gmap string dict) (s : SettingsDB) : SettingsDB :=
  {| file := file s; autosaveInterval := autosaveInterval s;
     _startupTime := _startupTime s; databaseUrl := databaseUrl s;
     _useDb := _useDb s; _dbType := _dbType s; _mongoDb := _mongoDb s;
     globalSettings := globalSettings s; groupSettings := x;
     updateTimes := updateTimes s; _dirty := _dirty s; _saving := _saving s;
     _pendingSave := _pendingSave s |}.

Definition set_updateTimes (x : gmap string (gmap string N)) (s : SettingsDB) : SettingsDB :=
  {| file := file s; autosaveInterval := autosaveInterval s;
     _startupTime := _startupTime s; databaseUrl := databaseUrl s;
     _useDb := _useDb s; _dbType := _dbType s; _mongoDb := _mongoDb s;
     globalSettings := globalSettings s; groupSettings := groupSettings s;
     updateTimes := x; _dirty := _dirty s; _saving := _saving s;
     _pendingSave := _pendingSave s |}.

Definition set_dirty (x : bool) (s : SettingsDB) : SettingsDB :=
  {| file := file s; autosaveInterval := autosaveInterval s;
     _startupTime := _startupTime s; databaseUrl := databaseUrl s;
     _useDb := _useDb s; _dbType := _dbType s; _mongoDb := _mongoDb s;
     globalSettings := globalSettings s; groupSettings := groupSettings s;
     updateTimes := updateTimes s; _dirty := x; _saving := _saving s;
     _pendingSave := _pendingSave s |}.

Definition set_saving (x : bool) (s : SettingsDB) : SettingsDB :=
  {| file := file s; autosaveInterval := autosaveInterval s;
     _startupTime := _startupTime s; databaseUrl := databaseUrl s;
     _useDb := _useDb s; _dbType := _dbType s; _mongoDb := _mongoDb s;
     globalSettings := globalSettings s; groupSettings := groupSettings s;
     updateTimes := updateTimes s; _dirty := _dirty s; _saving := x;
     _pendingSave := _pendingSave s |}.

Definition set_pendingSave (x : bool) (s : SettingsDB) : SettingsDB :=
  {| file := file s; autosaveInterval := autosaveInterval s;
     _startupTime := _startupTime s; databaseUrl := databaseUrl s;
     _useDb := _useDb s; _dbType := _dbType s; _mongoDb := _mongoDb s;
     globalSettings := globalSettings s; groupSettings := groupSettings s;
     updateTimes := updateTimes s; _dirty := _dirty s; _saving := _saving s;
     _pendingSave := x |}.

Definition set_db (x : SettingsDB) (w : world) : world :=
  {| db := x; disk := disk w; remote := remote w; inflight := inflight w;
     immediates := immediates w; emitted := emitted w; console := console w;
     journal := journal w |}.

Definition set_disk (x : gmap string content) (w : world) : world :=
  {| db := db w; disk := x; remote := remote w; inflight := inflight w;
     immediates := immediates w; emitted := emitted w; console := console w;
     journal := journal w |}.

Definition set_remote (x : option document) (w : world) : world :=
  {| db := db w; disk := disk w; remote := x; inflight := inflight w;
     immediates := immediates w; emitted := emitted w; console := console w;
     journal := journal w |}.

Definition set_inflight (x : option job) (w : world) : world :=
  {| db := db w; disk := disk w; remote := remote w; inflight := x;
     immediates := immediates w; emitted := emitted w; console := console w;
     journal := journal w |}.

Definition set_immediates (x : nat) (w : world) : world :=
  {| db := db w; disk := disk w; remote := remote w; inflight := inflight w;
     immediates := x; emitted := emitted w; console := console w;
     journal := journal w |}.

Definition set_emitted (x : list event) (w : world) : world :=
  {| db := db w; disk := disk w; remote := remote w; inflight := inflight w;
     immediates := immediates w; emitted := x; console := console w;
     journal := journal w |}.

Definition set_console (x : list log_line) (w : world) : world :=
  {| db := db w; disk := disk w; remote := remote w; inflight := inflight w;
     immediates := immediates w; emitted := emitted w; console := x;
     journal := journal w |}.

Definition set_journal (x : list document) (w : world) : world :=
  {| db := db w; disk := disk w; remote := remote w; inflight := inflight w;
     immediates := immediates w; emitted := emitted w; console := console w;
     journal := x |}.

Definition upd_db (f : SettingsDB → SettingsDB) (w : world) : world :=
  set_db (f (db w)) w.

Definition emit (e : event) (w : world) : world :=
  set_emitted (e :: emitted w) w.

Definition log (l : log_line) (w : world) : world :=
  set_console (l :: console w) w.

(** ** Computations that may throw *)

Definition M (A : Type) : Type := world → outcome A * world.

Definition ret {A} (a : A) : M A := λ w, (Returned a, w).

Definition throw {A} (e : error) : M A := λ w, (Thrown e, w).

Definition bind {A B} (m : M A) (k : A → M B) : M B := λ w,
  match m w with
  | (Returned a, w') => k a w'
  | (Thrown e, w') => (Thrown e, w')
  end.

(** [try { body } catch (err) { handler }] *)
Definition try_catch {A} (body : M A) (handler : error → M A) : M A := λ w,
  match body w with
  | (Returned a, w') => (Returned a, w')
  | (Thrown e, w') => handler e w'
  end.

(** A statement that cannot throw. *)
Definition exec (f : world → world) : M unit := λ w, (Returned tt, f w).

Definition read {A} (f : world → A) : M A := λ w, (Returned (f w), w).

Notation "'let*' x ':=' m 'in' k" := (bind m (λ x, k))
  (at level 10, x name, m at level 100, k at level 200, only parsing).
Notation "m ';;' k" := (bind m (λ _, k))
  (at level 100, k at level 200, right associativity, only parsing).

(** ** Construction (lines 25-60) *)

Record options := {
  opt_file : option string;
  opt_autosaveInterval : option Z;
  opt_databaseUrl : option url
}.

(** [path.join(__dirname, 'data', 'settings_db.json')], from the repository
    root. *)
Definition DEFAULT_FILE : string := "lib/database/data/settings_db.json".

(** [opts.file || DEFAULT_FILE] *)
Definition file_or_default (f : option string) : string :=
  match f with
  | Some p => if p =? EmptyString then DEFAULT_FILE else p
  | None => DEFAULT_FILE
  end.

Definition new_SettingsDB (opts : options) (now : N) : SettingsDB :=
  {| file := file_or_default (opt_file opts);
     autosaveInterval := default 5000%Z (opt_autosaveInterval opts);
     _startupTime := now;
     databaseUrl := opt_databaseUrl opts;
     _useDb := bool_decide (is_Some (opt_databaseUrl opts));
     _dbType := None;
     _mongoDb := false;
     globalSettings := null_object;
     groupSettings := ∅;
     updateTimes := ∅;
     _dirty := false;
     _saving := false;
     _pendingSave := false |}.

(** A process that has just constructed its store, on a given file system. *)
Definition boot (opts : options) (now : N) (files : gmap string content)
    (row : option document) : world :=
  {| db := new_SettingsDB opts now; disk := files; remote := row;
     inflight := None; immediates := 0; emitted := []; console := [];
     journal := [] |}.

(** ** Driver initialisation (lines 69-152) *)

(** [_initDbClients()] up to its first await: the driver is chosen by the
    scheme, and [_dbType] is assigned before anything is awaited. *)
Definition _initDbClients (s : SettingsDB) : init_state * SettingsDB :=
  if negb (_useDb s) then (InitDone, s) else
  match databaseUrl s with
  | None => (InitFailed InvalidURL, s)
  | Some u =>
    let proto := protocol u in
    if (proto =? "postgres") || (proto =? "postgresql") then
      (InitPending, set_dbType (Some Postgres) s)
    else if proto =? "mongodb" then
      (InitPending, set_dbType (Some Mongodb) s)
    else if proto =? "mysql" then
      (InitPending, set_dbType (Some Mysql) s)
    else if proto =? "file" then
      (InitDone, set_dbType (Some FileDb) s)
    else if (proto =? "http") || (proto =? "https") then
      (InitDone, set_dbType (Some Http) s)
    else (InitFailed (UnsupportedProtocol proto), s)
  end.

(** [initClientsIfNeeded()] up to its await. *)
Definition init_start (w : world) : init_state * world :=
  if _useDb (db w) && negb (bool_decide (is_Some (_dbType (db w)))) then
    let '(r, s) := _initDbClients (db w) in (r, set_db s w)
  else (InitDone, w).

(** The awaited rest of the initialisation; [ok] tells whether the
    connection or the creation of the table succeeded.  PostgreSQL and
    MySQL log a failure; MongoDB assigns [_mongoDb] on success only. *)
Definition init_finish (r : init_state) (ok : bool) : M unit := λ w,
  match r with
  | InitDone => (Returned tt, w)
  | InitFailed e => (Thrown e, w)
  | InitPending =>
      match _dbType (db w), ok with
      | Some Mongodb, true => (Returned tt, upd_db (set_mongoDb true) w)
      | Some Mongodb, false => (Thrown IOError, w)
      | _, true => (Returned tt, w)
      | _, false => (Thrown IOError, log LogDriverInitError w)
      end
  end.

(** [await this.initClientsIfNeeded()] run to its end. *)
Definition initClientsIfNeeded (ok : bool) : M unit := λ w,
  let '(r, w') := init_start w in init_finish r ok w'.

(** ** Saving (lines 211-260, 317-388) *)

(** The object [obj] built by [save], as [JSON.stringify] sees it at that
    moment. *)
Definition snapshot (s : SettingsDB) : document :=
  {| doc_globalSettings := Some (own (globalSettings s));
     doc_groupSettings := Some (own <$> groupSettings s);
     doc_updateTimes := Some (updateTimes s) |}.

Definition json_groups (g : gmap string (gmap string value))
    : gmap string (gmap string value) :=
  json_object <$> g.

(** [JSON.stringify(obj)], as the document its text parses to. *)
Definition stringify (d : document) : document :=
  {| doc_globalSettings := option_map json_object (doc_globalSettings d);
     doc_groupSettings := option_map json_groups (doc_groupSettings d);
     doc_updateTimes := doc_updateTimes d |}.

(** The object [obj] built by [save], with its references. *)
Definition capture_of (s : SettingsDB) : capture :=
  {| cap_globalSettings := None;
     cap_groupSettings := (λ _, None) <$> groupSettings s;
     cap_updateTimes := updateTimes s |}.

(** The own properties of a captured object. *)
Definition captured_global (c : capture) (s : SettingsDB) : gmap string value :=
  match cap_globalSettings c with
  | None => own (globalSettings s)
  | Some m => m
  end.

Definition captured_group (s : SettingsDB) (jid : string)
    (o : option (gmap string value)) : gmap string value :=
  match o with
  | None => own (default empty_object (groupSettings s !! jid))
  | Some m => m
  end.

(** The object [obj] of a suspended [save], as it is now. *)
Definition current (c : capture) (s : SettingsDB) : document :=
  {| doc_globalSettings := Some (captured_global c s);
     doc_groupSettings := Some (map_imap (λ jid o, Some (captured_group s jid o))
                                  (cap_groupSettings c));
     doc_updateTimes := Some (cap_updateTimes c) |}.

(** The store is about to drop all its settings objects, or the object of
    the group [jid]: a suspended [save] keeps them as they are. *)
Definition freeze (s : SettingsDB) (c : capture) : capture :=
  {| cap_globalSettings := Some (captured_global c s);
     cap_groupSettings := map_imap (λ jid o, Some (Some (captured_group s jid o)))
                            (cap_groupSettings c);
     cap_updateTimes := cap_updateTimes c |}.

Definition freeze_group (jid : string) (s : SettingsDB) (c : capture) : capture :=
  {| cap_globalSettings := cap_globalSettings c;
     cap_groupSettings :=
       match cap_groupSettings c !! jid with
       | Some o => <[jid := Some (captured_group s jid o)]> (cap_groupSettings c)
       | None => cap_groupSettings c
       end;
     cap_updateTimes := cap_updateTimes c |}.

Definition on_capture (f : SettingsDB → capture → capture) (w : world) : world :=
  match inflight w with
  | Some (RemoteInit c r) => set_inflight (Some (RemoteInit (f (db w) c) r)) w
  | Some (RemoteSaveInit c r) =>
      set_inflight (Some (RemoteSaveInit (f (db w) c) r)) w
  | Some (RemotePreparing c t) =>
      set_inflight (Some (RemotePreparing (f (db w) c) t)) w
  | _ => w
  end.

Definition start (j : job) (payload : document) (w : world) : world :=
  set_journal (payload :: journal w) (set_inflight (Some j) w).

(** [save()] up to its first await. *)
Definition save (w : world) : world :=
  if _saving (db w) then upd_db (set_pendingSave true) w
  else
    let w := upd_db (set_saving true) w in
    let w := upd_db (set_pendingSave false) w in
    if _useDb (db w) then
      let obj := capture_of (db w) in
      let '(r, w) := init_start w in
      set_inflight (Some (RemoteInit obj r)) w
    else
      let obj := snapshot (db w) in
      let tmp := file (db w) ++ ".tmp" in
      start (WritingTmp tmp (stringify obj)) (stringify obj) w.

(** The end of the [try] block of [save], after the write. *)
Definition save_succeeded (w : world) : world :=
  let w := upd_db (set_dirty false) w in
  let w := upd_db (set_saving false) w in
  let w := emit EvSaved w in
  let w := set_inflight None w in
  if _pendingSave (db w) then
    let w := upd_db (set_pendingSave false) w in
    set_immediates (S (immediates w)) w
  else w.

(** The [catch] block of [save]. *)
Definition save_failed (e : error) (w : world) : world :=
  let w := upd_db (set_saving false) w in
  let w := log (LogSaveError e) w in
  set_inflight None w.

Definition failed (e : error) (w : world) : option (outcome unit) * world :=
  (Some (Thrown e), save_failed e w).

(** The object is serialized and handed over for writing. *)
Definition send (c : capture) (target : option string) (w : world)
    : option (outcome unit) * world :=
  let payload := stringify (current c (db w)) in
  (None, start (RemoteWriting payload target) payload w).

(** [_remoteSave(obj)] up to its first await (lines 318-319).  When it
    returns at once, [save] goes on after its call. *)
Definition _remoteSave (c : capture) (w : world) : option (outcome unit) * world :=
  if negb (_useDb (db w)) then (Some (Returned tt), save_succeeded w)
  else
    let '(r, w) := init_start w in
    (None, set_inflight (Some (RemoteSaveInit c r)) w).

(** [_remoteSave(obj)] from its branch on [_dbType] on (lines 320-387), up
    to its next await.  MySQL and HTTP serialize [obj] at once; the file
    backend first awaits [mkdir]; PostgreSQL and MongoDB are given [obj]
    itself. *)
Definition remote_write (c : capture) (w : world) : option (outcome unit) * world :=
  match _dbType (db w) with
  | Some Mysql | Some Http => send c None w
  | Some Postgres => (None, set_inflight (Some (RemotePreparing c None)) w)
  | Some Mongodb =>
      if _mongoDb (db w) then (None, set_inflight (Some (RemotePreparing c None)) w)
      else failed TypeError w
  | Some FileDb =>
      match databaseUrl (db w) with
      | None => failed InvalidURL w
      | Some u => (None, set_inflight (Some (RemotePreparing c (Some (pathname u)))) w)
      end
  | None => failed UnsupportedDbType w
  end.

(** What the running [save] awaits completes, with success [ok].  The
    result says whether the promise of [save] is now settled. *)
Definition io_done (ok : bool) (w : world) : option (outcome unit) * world :=
  match inflight w with
  | None => (None, w)
  | Some (WritingTmp tmp text) =>
      if ok then
        (None, set_inflight (Some (Renaming tmp (file (db w))))
                 (set_disk (<[tmp := Document text]> (disk w)) w))
      else failed IOError w
  | Some (Renaming tmp target) =>
      match ok, disk w !! tmp with
      | true, Some c =>
          (Some (Returned tt),
           save_succeeded (set_disk (<[target := c]> (delete tmp (disk w))) w))
      | _, _ => failed IOError w
      end
  | Some (RemoteInit c r) =>
      match init_finish r ok w with
      | (Returned _, w) => _remoteSave c w
      | (Thrown e, w) => failed e w
      end
  | Some (RemoteSaveInit c r) =>
      match init_finish r ok w with
      | (Returned _, w) => remote_write c w
      | (Thrown e, w) => failed e w
      end
  | Some (RemotePreparing c (Some path)) =>
      (* mkdir(...).catch(() => {}): its failure is dropped *)
      send c (Some path) w
  | Some (RemotePreparing c None) =>
      if ok then send c None w else failed IOError w
  | Some (RemoteWriting payload target) =>
      if ok then
        (Some (Returned tt),
         save_succeeded
           match target with
           | Some path => set_disk (<[path := Document payload]> (disk w)) w
           | None => set_remote (Some payload) w
           end)
      else failed IOError w
  end.

(** A queued [setImmediate(() => this.save().catch(() => {}))] runs. *)
Definition run_immediate (w : world) : world :=
  match immediates w with
  | O => w
  | S n => save (set_immediates n w)
  end.

(** [_autoSave()], called by the timer. *)
Definition _autoSave (w : world) : world :=
  if _dirty (db w) then save w else w.

(** Outcomes of the I/O operations awaited by one call. *)
Record io := {
  io_init : bool;      (* driver initialisation *)
  io_remote : bool;    (* request to the external backend *)
  io_read : bool;      (* fs.promises.readFile *)
  io_copy : bool;      (* fs.promises.copyFile *)
  io_write : bool;     (* fs.promises.writeFile *)
  io_rename : bool     (* fs.promises.rename *)
}.

(** The outcome of what the running [save] awaits. *)
Definition awaited (o : io) (w : world) : bool :=
  match inflight w with
  | Some (WritingTmp _ _) => io_write o
  | Some (Renaming _ _) => io_rename o
  | Some (RemoteInit _ _) | Some (RemoteSaveInit _ _) => io_init o
  | Some (RemotePreparing _ _) | Some (RemoteWriting _ _) => io_remote o
  | None => true
  end.

(** The running [save], if any, is resumed until its promise settles,
    nothing else happening in between.  A save passes four awaits at
    most. *)
Fixpoint resume (awaits : nat) (o : io) (w : world) : outcome unit * world :=
  match awaits with
  | O => (Returned tt, w)
  | S n =>
      match io_done (awaited o w) w with
      | (Some r, w') => (r, w')
      | (None, w') =>
          match inflight w' with
          | Some _ => resume n o w'
          | None => (Returned tt, w')
          end
      end
  end.

Definition settle (o : io) : M unit := resume 4 o.

(** [await this.save()]: the call and, when it started a write, the write
    run to its end.  A call that finds a write in flight returns at once. *)
Definition save_await (o : io) : M unit := λ w,
  if _saving (db w) then (Returned tt, save w) else settle o (save w).

(** ** Loading (lines 154-209, 263-315) *)

(** [_remoteLoad()]: what the external backend holds, or [null].
    [io_remote] is the outcome of the query, request or file read. *)
Definition _remoteLoad (o : io) : M (option document) := λ w,
  if negb (_useDb (db w)) then (Returned None, w) else
  (initClientsIfNeeded (io_init o) ;;
   try_catch
     (λ w,
        match _dbType (db w) with
        | Some Mongodb =>
            if negb (_mongoDb (db w)) then (Thrown TypeError, w)
            else if io_remote o then (Returned (remote w), w)
            else (Thrown IOError, w)
        | Some Postgres | Some Mysql | Some Http =>
            if io_remote o then (Returned (remote w), w) else (Thrown IOError, w)
        | Some FileDb =>
            match databaseUrl (db w) with
            | None => (Thrown InvalidURL, w)
            | Some u =>
                match disk w !! pathname u with
                | None => (Returned None, w)
                | Some c =>
                    if negb (io_remote o) then (Thrown IOError, w) else
                    match c with
                    | Corrupt _ => (Thrown SyntaxError, w)
                    | Document d => (Returned (Some d), w)
                    end
                end
            end
        | None => (Returned None, w)
        end)
     (λ _, exec (log LogRemoteLoadFailed) ;; ret None)) w.

(** The assignments of [load] once a document has been obtained. *)
Definition adopt (d : document) (now : N) (s : SettingsDB) : SettingsDB :=
  let s := set_globalSettings (plain (default ∅ (doc_globalSettings d))) s in
  let s := set_groupSettings (plain <$> default ∅ (doc_groupSettings d)) s in
  let s := set_updateTimes (default ∅ (doc_updateTimes d)) s in
  let s := set_startupTime now s in
  set_dirty false s.

(** The store replaces its settings objects by those of [d]. *)
Definition populate (d : document) (now : N) : M unit :=
  exec (on_capture freeze) ;;
  exec (upd_db (adopt d now)).

Definition _writeInitialFile (o : io) : M unit :=
  exec (on_capture freeze) ;;
  exec (upd_db (set_globalSettings empty_object)) ;;
  exec (upd_db (set_groupSettings ∅)) ;;
  exec (upd_db (set_updateTimes ∅)) ;;
  try_catch (save_await o) (λ e, exec (log (LogInitialSaveFailed e))).

(** [fs.existsSync(this.file)] *)
Definition file_exists (w : world) : bool :=
  bool_decide (is_Some (disk w !! file (db w))).

(** [await fs.promises.readFile(this.file, 'utf8')] *)
Definition readFile (o : io) : M content := λ w,
  match disk w !! file (db w) with
  | Some c => if io_read o then (Returned c, w) else (Thrown IOError, w)
  | None => (Thrown IOError, w)
  end.

Definition JSON_parse (c : content) : M document :=
  match c with
  | Corrupt _ => throw SyntaxError
  | Document d => ret d
  end.

(** [`${this.file}.corrupt.${Date.now()}`] *)
Definition corruptPath (f : string) (now : N) : string :=
  f ++ ".corrupt." ++ pretty now.

(** The inner [try] of the [catch] block of [load]. *)
Definition backup (now : N) (o : io) : M unit := λ w,
  match disk w !! file (db w) with
  | Some c =>
      let path := corruptPath (file (db w)) now in
      if io_copy o then
        (Returned tt, log (LogBackedUp path) (set_disk (<[path := c]> (disk w)) w))
      else (Thrown IOError, w)
  | None => (Returned tt, w)
  end.

(** The first block of the [try]: what the external backend delivers. *)
Definition fetch_remote (o : io) : M (option document) := λ w,
  if _useDb (db w)
  then (initClientsIfNeeded (io_init o) ;; _remoteLoad o) w
  else (Returned None, w).

(** The second block of the [try]: the local file. *)
Definition load_local (now : N) (o : io) : M bool :=
  let* present := read file_exists in
  if negb present then _writeInitialFile o ;; ret true
  else
    let* raw := readFile o in
    let* parsed := JSON_parse raw in
    populate parsed now ;; ret true.

(** The [catch] block. *)
Definition load_failed (now : N) (o : io) (err : error) : M bool :=
  exec (log (LogLoadError err)) ;;
  try_catch (backup now o) (λ _, ret tt) ;;
  ret false.

Definition load (now : N) (o : io) : M bool :=
  try_catch
    (let* data := fetch_remote o in
     match data with
     | Some d => populate d now ;; ret true
     | None => load_local now o
     end)
    (load_failed now o).

(** The exported [init(opts)] (lines 554-570), on the singleton: the
    options are taken over, then [load] is awaited and its result dropped. *)
Definition configure (opts : options) (w : world) : world :=
  let w := match opt_file opts with
           | Some f => if f =? EmptyString then w else upd_db (set_file f) w
           | None => w
           end in
  let w := match opt_autosaveInterval opts with
           | Some i => upd_db (set_autosaveInterval i) w
           | None => w
           end in
  match opt_databaseUrl opts with
  | Some u => upd_db (set_useDb true) (upd_db (set_databaseUrl (Some u)) w)
  | None => w
  end.

Definition init (opts : options) (now : N) (o : io) : M unit :=
  exec (configure opts) ;;
  load now o ;;
  ret tt.

(** ** Getters (lines 405-412, 527-548) *)

(** The object of a group: [this.groupSettings.get(jid) || {}] *)
Definition group_object (jid : string) (s : SettingsDB) : dict :=
  default empty_object (groupSettings s !! jid).

(** [get(jidOrPlugin, pluginName = null)] *)
Definition get (jidOrPlugin : string) (pluginName : option string)
    (s : SettingsDB) : reading :=
  match pluginName with
  | None => prop (globalSettings s) jidOrPlugin
  | Some name => prop (group_object jidOrPlugin s) name
  end.

Definition get_global (key : string) (s : SettingsDB) : reading := get key None s.

Definition get_group (jid pluginName : string) (s : SettingsDB) : reading :=
  get jid (Some pluginName) s.

(** The object [out] that [getMultiple] fills and returns: its own
    properties and what its prototype is. *)
Record result := {
  res_own : gmap string reading;
  res_prototype : reading
}.

(** Whether an assignment to [__proto__] reaches the setter of
    [Object.prototype]. *)
Definition result_has_proto_accessor (out : result) : bool :=
  match res_own out !! "__proto__" with
  | Some _ => false
  | None =>
      match res_prototype out with
      | Data JNull => false
      | Data (JObj m) => bool_decide (m !! "__proto__" = None)
      | _ => true
      end
  end.

(** [out[key] = r] *)
Definition assign_result (out : result) (key : string) (r : reading) : result :=
  if (key =? "__proto__") && result_has_proto_accessor out then
    match typeof_reading r with
    | TObject | TFunction => {| res_own := res_own out; res_prototype := r |}
    | _ => out
    end
  else {| res_own := <[key := r]> (res_own out); res_prototype := res_prototype out |}.

(** The body of the loop of [getMultiple]. *)
Definition resolve (groupCfg : option dict) (defaults : dict) (s : SettingsDB)
    (key : string) : reading :=
  let val :=
    match groupCfg with
    | Some g =>
        if defined (prop g key) then prop g key
        else if defined (prop (globalSettings s) key) then prop (globalSettings s) key
        else prop defaults key
    | None =>
        if defined (prop (globalSettings s) key) then prop (globalSettings s) key
        else prop defaults key
    end in
  if is_boolean (prop defaults key) then Data (JBool (toBool val)) else val.

Definition getMultiple (jid : option string) (keys : list string)
    (defaults : dict) (s : SettingsDB) : result :=
  let groupCfg :=
    match jid with
    | Some j => if j =? EmptyString then None else groupSettings s !! j
    | None => None
    end in
  foldl (λ out key, assign_result out key (resolve groupCfg defaults s key))
        {| res_own := ∅; res_prototype := Builtin ObjectPrototype |} keys.

(** ** Setters (lines 415-507) *)

(** [_isJid(val)] *)
Definition _isJid (val : value) : bool :=
  match val with
  | JStr s => endsWith "@g.us" s || includes_char "@" s
  | _ => false
  end.

(** [_setUpdateTime(jidOrGlobal, pluginName)] *)
Definition _setUpdateTime (jidOrGlobal pluginName : string) (now : N)
    (s : SettingsDB) : SettingsDB :=
  let key := if jidOrGlobal =? EmptyString then "global" else jidOrGlobal in
  let m := default ∅ (updateTimes s !! key) in
  set_updateTimes (<[key := <[pluginName := now]> m]> (updateTimes s)) s.

(** [if (persist) await this.save().catch(() => {})]: the call is made, its
    failure is dropped. *)
Definition persist_if (persist : bool) (w : world) : world :=
  if persist then save w else w.

Definition setGlobal (pluginKey : string) (v : value) (persist : bool)
    (now : N) : M reading :=
  exec (upd_db (λ s, set_globalSettings (assign (globalSettings s) pluginKey v) s)) ;;
  exec (upd_db (_setUpdateTime "global" pluginKey now)) ;;
  exec (upd_db (set_dirty true)) ;;
  exec (emit (EvUpdateGlobal pluginKey v)) ;;
  exec (persist_if persist) ;;
  ret (Data JUndefined).

(** [existing[pluginName] = value; this.groupSettings.set(jid, existing)] *)
Definition write_group (jid pluginName : string) (v : value)
    (s : SettingsDB) : SettingsDB :=
  let existing := group_object jid s in
  set_groupSettings (<[jid := assign existing pluginName v]> (groupSettings s)) s.

Definition setGroupPlugin (jid pluginName : string) (v : value)
    (persist : bool) (now : N) : M reading :=
  exec (upd_db (write_group jid pluginName v)) ;;
  exec (upd_db (_setUpdateTime jid pluginName now)) ;;
  exec (upd_db (set_dirty true)) ;;
  exec (emit (EvUpdateGroup jid pluginName (Data v))) ;;
  exec (persist_if persist) ;;
  ret (Data JUndefined).

Definition toggleGlobal (pluginKey : string) (persist : bool) (now : N)
    : M reading :=
  let* current := read (λ w, truthy (prop (globalSettings (db w)) pluginKey)) in
  let next := negb current in
  setGlobal pluginKey (JBool next) persist now ;;
  ret (Data (JBool next)).

Definition toggleGroupPlugin (jid pluginKey : string) (persist : bool)
    (now : N) : M reading :=
  let* existing := read (λ w, group_object jid (db w)) in
  let current := truthy (prop existing pluginKey) in
  let next := negb current in
  exec (upd_db (write_group jid pluginKey (JBool next))) ;;
  exec (upd_db (_setUpdateTime jid pluginKey now)) ;;
  exec (upd_db (set_dirty true)) ;;
  exec (emit (EvUpdateGroup jid pluginKey (Data (JBool next)))) ;;
  exec (persist_if persist) ;;
  ret (Data (JBool next)).

Definition setGroupPluginConfig (jid pluginName : string) (configObj : value)
    (persist : bool) (now : N) : M reading :=
  match typeof configObj, configObj with
  | TObject, JNull => throw ConfigNotObject
  | TObject, _ =>
      let* existing := read (λ w, group_object jid (db w)) in
      let prev := js_or (prop existing pluginName) (Data (JObj ∅)) in
      let merged := JObj (spread configObj ∪ spread_reading prev) in
      exec (upd_db (write_group jid pluginName merged)) ;;
      exec (upd_db (_setUpdateTime jid pluginName now)) ;;
      exec (upd_db (set_dirty true)) ;;
      let* stored := read (λ w, prop (group_object jid (db w)) pluginName) in
      exec (emit (EvUpdateGroup jid pluginName stored)) ;;
      exec (persist_if persist) ;;
      read (λ w, prop (group_object jid (db w)) pluginName)
  | _, _ => throw ConfigNotObject
  end.

Definition deleteGroup (jid : string) (persist : bool) : M reading :=
  let* existed := read (λ w, bool_decide (is_Some (groupSettings (db w) !! jid))) in
  exec (on_capture (freeze_group jid)) ;;
  exec (upd_db (λ s, set_groupSettings (delete jid (groupSettings s)) s)) ;;
  exec (upd_db (λ s, set_updateTimes (delete jid (updateTimes s)) s)) ;;
  exec (upd_db (set_dirty true)) ;;
  exec (emit (EvDeleteGroup jid)) ;;
  exec (persist_if persist) ;;
  ret (Data (JBool existed)).

(** The generic setter [set(jidOrPlugin, pluginName, value, { persist })]. *)
Definition set (jidOrPlugin : string) (pluginName v : value) (persist : bool)
    (now : N) : M reading :=
  match _isJid (JStr jidOrPlugin), pluginName with
  | true, JStr name => setGroupPlugin jidOrPlugin name v persist now
  | _, JUndefined => throw InvalidArguments
  | _, _ => setGlobal jidOrPlugin pluginName persist now
  end.

(** ** Calls and steps *)

Inductive call :=
| SetGlobal (pluginKey : string) (v : value)
| SetGroupPlugin (jid pluginName : string) (v : value)
| SetGroupPluginConfig (jid pluginName : string) (configObj : value)
| ToggleGlobal (pluginKey : string)
| ToggleGroupPlugin (jid pluginKey : string)
| DeleteGroup (jid : string)
| SetAny (jidOrPlugin : string) (pluginName v : value).   (* set(...) *)

Definition invoke (c : call) (persist : bool) (now : N) : M reading :=
  match c with
  | SetGlobal k v => setGlobal k v persist now
  | SetGroupPlugin j k v => setGroupPlugin j k v persist now
  | SetGroupPluginConfig j k cfg => setGroupPluginConfig j k cfg persist now
  | ToggleGlobal k => toggleGlobal k persist now
  | ToggleGroupPlugin j k => toggleGroupPlugin j k persist now
  | DeleteGroup j => deleteGroup j persist
  | SetAny a b v => set a b v persist now
  end.

(** Everything that can happen to the store between two turns of the event
    loop. *)
Inductive op :=
| Call (c : call) (persist : bool) (now : N)   (* a setter is called *)
| Save                (* save() is called *)
| AutoSave            (* the autosave timer fires *)
| IoDone (ok : bool)  (* what the running save awaits completes *)
| Immediate           (* a queued setImmediate callback runs *)
| Load (now : N) (o : io)            (* load() is called and runs to its end *)
| Init (opts : options) (now : N) (o : io)    (* the exported init(opts) *)
| Close.              (* close() is called: its save() *)

Definition step (a : op) (w : world) : world :=
  match a with
  | Call c persist now => (invoke c persist now w).2
  | Save => save w
  | AutoSave => if (0 <? autosaveInterval (db w))%Z then _autoSave w else w
  | IoDone ok => (io_done ok w).2
  | Immediate => run_immediate w
  | Load now o => (load now o w).2
  | Init opts now o => (init opts now o w).2
  | Close => save w
  end.


(** * Notions of the specification *)

(** [s] spells [word] in some letter case: every character is the one of
    [word] or its upper-case form. *)
Fixpoint any_case (word s : string) : bool :=
  match word, s with
  | EmptyString, EmptyString => true
  | String c word', String d s' =>
      (Ascii.eqb d c || Ascii.eqb d (upper_ascii c)) && any_case word' s'
  | _, _ => false
  end.

(** The characters of the words of the truth table. *)
Definition word_chars : list ascii :=
  list_ascii_of_string "true1yeson".

(** The truth table of the specification: "string values "true", "1",
    "yes", "on", case-insensitive, and numeric truthiness map to true/false;
    all else uses natural truthiness". *)
Definition truth_table (r : reading) : bool :=
  match r with
  | Data (JStr t) => existsb (λ word, any_case word t) ["true"; "1"; "yes"; "on"]
  | Data (JBool b) => b
  | Data (JNum z) => bool_decide (z ≠ 0%Z)
  | Data (JUndefined | JNull | JNaN) => false
  | Data (JObj _ | JArr _) | Builtin _ => true
  end.

(** What reading [obj[key]] finds, if it is not [undefined]. *)
Definition present (obj : dict) (key : string) : option reading :=
  match prop obj key with
  | Data JUndefined => None
  | r => Some r
  end.

(** The resolution order of [getMultiple], as the code has it: the group is
    that of a non-empty scope, and every value is read the way [obj[key]]
    reads it. *)
Definition resolve_spec (jid : option string) (defaults : dict)
    (s : SettingsDB) (key : string) : reading :=
  let group :=
    match jid with
    | Some j => if decide (j = EmptyString) then None else groupSettings s !! j
    | None => None
    end in
  match group ≫= (λ g, present g key) with
  | Some r => r
  | None =>
      match present (globalSettings s) key with
      | Some r => r
      | None => prop defaults key
      end
  end.

(** The resolution order of C2 as stated: "the group-scope value if
    present, else the global value if present, else defaults[key]", for
    every scope, on the settings that were stored. *)
Definition resolve_stated (jid : option string) (defaults : dict)
    (s : SettingsDB) (key : string) : reading :=
  match (jid ≫= (λ j, groupSettings s !! j)) ≫= (λ g, own g !! key) with
  | Some v => Data v
  | None =>
      match own (globalSettings s) !! key with
      | Some v => Data v
      | None => prop defaults key
      end
  end.

(** The boolean normalisation of [getMultiple]. *)
Definition normalized (defaults : dict) (key : string) (r : reading) : reading :=
  match typeof_reading (prop defaults key) with
  | TBoolean => Data (JBool (truth_table r))
  | _ => r
  end.

(** C2 as stated, at one call. *)
Definition getMultiple_as_stated (jid : option string) (keys : list string)
    (defaults : dict) (s : SettingsDB) : Prop :=
  ∀ key, key ∈ keys →
    res_own (getMultiple jid keys defaults s) !! key
    = Some (normalized defaults key (resolve_stated jid defaults s key)).

(** "{globalSettings:{}, groupSettings:{}, updateTimes:{}}" *)
Definition empty_document : document :=
  {| doc_globalSettings := Some ∅; doc_groupSettings := Some ∅;
     doc_updateTimes := Some ∅ |}.

(** The scope token under which [_setUpdateTime] files a stamp. *)
Definition scope_token (jid : string) : string :=
  if jid =? EmptyString then "global" else jid.

(** [(scope, key)] carries the timestamp [now]. *)
Definition stamped (scope key : string) (now : N) (s : SettingsDB) : Prop :=
  ∃ m, updateTimes s !! scope = Some m ∧ m !! key = Some now.

(** [obj'] is [obj] after [obj[key] = v] for a key other than [__proto__]:
    the key is an own property with the value [v], nothing else differs. *)
Definition stores (obj obj' : dict) (key : string) (v : value) : Prop :=
  own obj' = <[key := v]> (own obj) ∧ proto obj' = proto obj.

(** The Snapshot: the three maps of the store. *)
Definition snapshot_of (s : SettingsDB)
    : dict * gmap string dict * gmap string (gmap string N) :=
  (globalSettings s, groupSettings s, updateTimes s).

Definition all_ok : io :=
  {| io_init := true; io_remote := true; io_read := true; io_copy := true;
     io_write := true; io_rename := true |}.

Definition no_options : options :=
  {| opt_file := None; opt_autosaveInterval := None; opt_databaseUrl := None |}.

(** C1 as stated asks of every mutating operation that it emit an [update]
    event. *)
Definition emits_update (c : call) : Prop :=
  ∀ persist now w,
    ∃ e, emitted (invoke c persist now w).2 = e :: emitted w ∧ is_update e = true.

(** C1 as stated asks of a setter that the value it was given be what the
    store then holds under the key. *)
Definition group_holds (jid key : string) (v : value) : Prop :=
  ∀ persist now w,
    get_group jid key (db (invoke (SetGroupPlugin jid key v) persist now w).2) = Data v.

(** C10 as stated: [set(k, v)] "stores the value undefined under
    GroupSettings[k][v]". *)
Definition set_stores_undefined (k v : string) : Prop :=
  ∀ persist now w,
    own (group_object k (db (set k (JStr v) JUndefined persist now w).2)) !! v
    = Some JUndefined.

(** A suspended save that has produced the text it writes. *)
Definition text_produced (j : option job) : Prop :=
  match j with
  | Some (RemoteInit _ _) | Some (RemoteSaveInit _ _)
  | Some (RemotePreparing _ _) => False
  | _ => True
  end.

(** A sequence of setter calls is replayed; the [i]-th call reads
    [clock i]. *)
Fixpoint replay (cs : list (call * bool)) (clock : nat → N) (i : nat)
    (w : world) : world :=
  match cs with
  | [] => w
  | (c, persist) :: cs' => replay cs' clock (S i) (invoke c persist (clock i) w).2
  end.

(** Which (scope, key) pairs carry a stamp, whatever the stamp. *)
Definition stamp_keys (m : gmap string N) : gmap string () := (λ _, ()) <$> m.

Definition stamps (s : SettingsDB) : gmap string (gmap string ()) :=
  stamp_keys <$> updateTimes s.

(** Two stores that agree on the settings and on which pairs are stamped. *)
Definition alike (w1 w2 : world) : Prop :=
  globalSettings (db w1) = globalSettings (db w2)
  ∧ groupSettings (db w1) = groupSettings (db w2)
  ∧ stamps (db w1) = stamps (db w2).

(** What a call of [load], alone or inside [init], returned. *)
Definition load_result (a : op) (w : world) : option (outcome bool) :=
  match a with
  | Load now o => Some (load now o w).1
  | Init opts now o => Some (load now o (configure opts w)).1
  | _ => None
  end.

(** C9 as stated: the dirty flag falls only when a physical write succeeds,
    that is in a step that emits [saved]. *)
Definition cleared_only_by_write : Prop :=
  ∀ a w, _dirty (db w) = true → _dirty (db (step a w)) = false →
         ∃ new, emitted (step a w) = (new ++ emitted w)%list ∧ EvSaved ∈ new.

(** The store after a setter wrote [v] under [k] in its global settings at
    the clock reading [now]. *)
Definition global_written (k : string) (v : value) (now : N) (w w' : world) : Prop :=
  (k ≠ "__proto__" → stores (globalSettings (db w)) (globalSettings (db w')) k v)
  ∧ (∀ p, p ≠ k → own (globalSettings (db w')) !! p = own (globalSettings (db w)) !! p)
  ∧ groupSettings (db w') = groupSettings (db w)
  ∧ stamped "global" k now (db w')
  ∧ _dirty (db w') = true
  ∧ emitted w' = EvUpdateGlobal k v :: emitted w.

(** The store after a setter wrote [v] under [k] in the object of the group
    [j], and emitted the value [r]. *)
Definition group_written (j k : string) (v : value) (r : reading) (now : N)
    (w w' : world) : Prop :=
  (∃ g', groupSettings (db w') = <[j := g']> (groupSettings (db w))
         ∧ (k ≠ "__proto__" → stores (group_object j (db w)) g' k v)
         ∧ (∀ p, p ≠ k → own g' !! p = own (group_object j (db w)) !! p))
  ∧ globalSettings (db w') = globalSettings (db w)
  ∧ stamped (scope_token j) k now (db w')
  ∧ _dirty (db w') = true
  ∧ emitted w' = EvUpdateGroup j k r :: emitted w.



(** The document of the Snapshot: the three maps with the own properties
    of the settings objects, as JSON renders them. *)
Definition persisted (s : SettingsDB) : document :=
  {| doc_globalSettings := Some (json_object (own (globalSettings s)));
     doc_groupSettings := Some ((λ g, json_object (own g)) <$> groupSettings s);
     doc_updateTimes := Some (updateTimes s) |}.

(** The text that a suspended save has still to produce. *)
Definition text_due (j : job) (s : SettingsDB) : option document :=
  match j with
  | RemoteInit c _ | RemoteSaveInit c _ | RemotePreparing c _ =>
      Some (stringify (current c s))
  | _ => None
  end.

(** The number of awaits that a suspended save has before it at most. *)
Definition awaits_left (j : job) : nat :=
  match j with
  | RemoteInit _ _ => 4
  | RemoteSaveInit _ _ => 3
  | WritingTmp _ _ | RemotePreparing _ _ => 2
  | Renaming _ _ | RemoteWriting _ _ => 1
  end.

(** What one await leaves as it is. *)
Definition unmoved (w w' : world) : Prop :=
  snapshot_of (db w') = snapshot_of (db w)
  ∧ _useDb (db w') = _useDb (db w)
  ∧ databaseUrl (db w') = databaseUrl (db w)
  ∧ file (db w') = file (db w)
  ∧ _startupTime (db w') = _startupTime (db w).

(** What the first block of [load] obtains from the external backend. *)
Inductive backend_answer :=
| Delivered (d : document)    (* a document: [load] populates the store *)
| Nothing                     (* [null]: [load] goes on with the local file *)
| Failed (e : error).         (* the driver initialisation threw *)

Definition remote_answer (o : io) (w : world) : backend_answer :=
  match (fetch_remote o w).1 with
  | Returned (Some d) => Delivered d
  | Returned None => Nothing
  | Thrown e => Failed e
  end.

(** The schemes of the connection descriptor that select a driver. *)
Definition recognized (proto : string) : Prop :=
  proto ∈ ["postgres"; "postgresql"; "mysql"; "mongodb"; "file"; "http"; "https"].

(** The Snapshot as deep equality sees it: the own properties of the
    settings objects and the timestamps. *)
Definition contents (s : SettingsDB)
    : gmap string value * gmap string (gmap string value)
      * gmap string (gmap string N) :=
  (own (globalSettings s), own <$> groupSettings s, updateTimes s).

(** The Snapshot that a document holds. *)
Definition contents_of (d : document)
    : gmap string value * gmap string (gmap string value)
      * gmap string (gmap string N) :=
  (default ∅ (doc_globalSettings d), default ∅ (doc_groupSettings d),
   default ∅ (doc_updateTimes d)).

(** What is left of a Snapshot after it has been written as JSON and
    read. *)
Definition json_image
    (c : gmap string value * gmap string (gmap string value)
         * gmap string (gmap string N))
    : gmap string value * gmap string (gmap string value)
      * gmap string (gmap string N) :=
  (json_object c.1.1, json_object <$> c.1.2, c.2).

(** Every stored setting is JSON-serializable. *)
Definition serializable_settings (s : SettingsDB) : Prop :=
  (∀ k v, own (globalSettings s) !! k = Some v → serializable v)
  ∧ (∀ j g k v, groupSettings s !! j = Some g → own g !! k = Some v → serializable v).

(** A new process with the same configuration on the same storage. *)
Definition restart (t : N) (w : world) : world :=
  {| db := {| file := file (db w);
              autosaveInterval := autosaveInterval (db w);
              _startupTime := t;
              databaseUrl := databaseUrl (db w);
              _useDb := _useDb (db w);
              _dbType := None;
              _mongoDb := false;
              globalSettings := null_object;
              groupSettings := ∅;
              updateTimes := ∅;
              _dirty := false;
              _saving := false;
              _pendingSave := false |};
     disk := disk w; remote := remote w;
     inflight := None; immediates := 0; emitted := []; console := [];
     journal := [] |}.

(** The store keeps its document in a file: the local one, or the one a
    [file:] descriptor names. *)
Definition keeps_in_files (s : SettingsDB) : Prop :=
  _useDb s = false
  ∨ ∃ u, _useDb s = true ∧ databaseUrl s = Some u ∧ protocol u = "file"
         ∧ (_dbType s = None ∨ _dbType s = Some FileDb).

(** C5 as stated, at one store: [save()] then [load()] gives back a
    Snapshot deep-equal to the one before. *)
Definition roundtrip_as_stated (now : N) (o1 o2 : io) (w : world) : Prop :=
  contents (db (load now o2 (save_await o1 w).2).2) = contents (db w).

(** C4 as stated, at one call of [load], for the file at [p]: the call
    reports failure, leaves the settings alone and adds one file, a copy of
    the file at [p], at a path where no file was. *)
Definition backs_up_as_stated (p : string) (now : N) (o : io) (w : world) : Prop :=
  (load now o w).1 = Returned false
  ∧ snapshot_of (db (load now o w).2) = snapshot_of (db w)
  ∧ ∃ path c, path ≠ p ∧ disk w !! p = Some c ∧ disk w !! path = None
              ∧ disk (load now o w).2 = <[path := c]> (disk w).



(** * Properties *)

(** ** Strings *)

Lemma includes_char_app c a b : includes_char c (a ++ String c b) = true.
Proof.
  induction a as [|d a IH]; simpl.
  - by rewrite Ascii.eqb_refl.
  - by rewrite IH, orb_true_r.
Qed.

Lemma any_case_char c d :
  c ∈ word_chars →
  Ascii.eqb d c || Ascii.eqb d (upper_ascii c) = Ascii.eqb (lower_ascii d) c.
Proof.
  intros Hc. unfold word_chars in Hc. simpl in Hc.
  repeat (apply elem_of_cons in Hc as [->|Hc];
          [destruct d as [[] [] [] [] [] [] [] []]; reflexivity|]).
  by apply not_elem_of_nil in Hc.
Qed.

Lemma any_case_toLowerCase word s :
  Forall (λ c, c ∈ word_chars) (list_ascii_of_string word) →
  any_case word s = (toLowerCase s =? word).
Proof.
  revert s. induction word as [|c word IH]; intros [|d s] Hw; simpl; try done.
  apply Forall_cons in Hw as [Hc Hw].
  by rewrite any_case_char, IH.
Qed.

Lemma toBool_truth_table r : toBool r = truth_table r.
Proof.
  destruct r as [[| |[]|z| |t| |]|]; try reflexivity.
  - destruct z as [|[]|]; reflexivity.
  - unfold toBool, truth_table, includes. cbn [existsb].
    rewrite !any_case_toLowerCase; [done|..];
      repeat (apply Forall_cons; split; [apply (bool_decide_unpack _); by vm_compute|]);
      apply Forall_nil_2.
Qed.

(** ** Assignments *)

Lemma assign_stores obj k v :
  k ≠ "__proto__" → stores obj (assign obj k v) k v.
Proof.
  intros Hk. unfold assign, stores.
  destruct (String.eqb_spec k "__proto__") as [->|_]; [done|]. by simpl.
Qed.

Lemma assign_others obj k v p :
  p ≠ k → own (assign obj k v) !! p = own obj !! p.
Proof.
  intros Hp. unfold assign.
  destruct ((k =? "__proto__") && has_proto_accessor obj).
  - by destruct v.
  - simpl. by rewrite lookup_insert_ne.
Qed.

Lemma assign_undefined_proto obj k : proto (assign obj k JUndefined) = proto obj.
Proof. unfold assign. by destruct ((k =? "__proto__") && has_proto_accessor obj). Qed.

(** ** The persistence calls leave the settings alone *)

Lemma init_start_frame w :
  ∃ t, (init_start w).2 = upd_db (set_dbType t) w.
Proof.
  unfold init_start, _initDbClients.
  destruct w as [s ? ? ? ? ? ? ?]; destruct s; simpl.
  repeat case_match; simplify_eq; simpl; eexists; reflexivity.
Qed.

Lemma save_frame w :
  globalSettings (db (save w)) = globalSettings (db w)
  ∧ groupSettings (db (save w)) = groupSettings (db w)
  ∧ updateTimes (db (save w)) = updateTimes (db w)
  ∧ _dirty (db (save w)) = _dirty (db w)
  ∧ emitted (save w) = emitted w.
Proof.
  unfold save. destruct (_saving (db w)); [done|].
  cbn zeta. destruct (_useDb _); [|done].
  match goal with |- context [init_start ?x] =>
    destruct (init_start_frame x) as [t Ht]; destruct (init_start x) as [r w1] end.
  simpl in Ht. by subst w1.
Qed.

Lemma save_globalSettings w : globalSettings (db (save w)) = globalSettings (db w).
Proof. apply save_frame. Qed.

Lemma save_groupSettings w : groupSettings (db (save w)) = groupSettings (db w).
Proof. apply save_frame. Qed.

Lemma save_updateTimes w : updateTimes (db (save w)) = updateTimes (db w).
Proof. apply save_frame. Qed.

Lemma save_dirty w : _dirty (db (save w)) = _dirty (db w).
Proof. apply save_frame. Qed.

Lemma save_emitted w : emitted (save w) = emitted w.
Proof. apply save_frame. Qed.

Lemma persist_if_globalSettings p w :
  globalSettings (db (persist_if p w)) = globalSettings (db w).
Proof. destruct p; [apply save_globalSettings | done]. Qed.

Lemma persist_if_groupSettings p w :
  groupSettings (db (persist_if p w)) = groupSettings (db w).
Proof. destruct p; [apply save_groupSettings | done]. Qed.

Lemma persist_if_updateTimes p w :
  updateTimes (db (persist_if p w)) = updateTimes (db w).
Proof. destruct p; [apply save_updateTimes | done]. Qed.

Lemma persist_if_dirty p w : _dirty (db (persist_if p w)) = _dirty (db w).
Proof. destruct p; [apply save_dirty | done]. Qed.

Lemma persist_if_emitted p w : emitted (persist_if p w) = emitted w.
Proof. destruct p; [apply save_emitted | done]. Qed.

Create Rewrite HintDb persist.
#[local] Hint Rewrite persist_if_globalSettings persist_if_groupSettings
  persist_if_updateTimes persist_if_dirty persist_if_emitted : persist.

Lemma on_capture_db f w : db (on_capture f w) = db w.
Proof. unfold on_capture. by repeat case_match. Qed.

Lemma on_capture_emitted f w : emitted (on_capture f w) = emitted w.
Proof. unfold on_capture. by repeat case_match. Qed.

(** ** The generic setter *)

(** Claim C10, as the code has it.  For every string [k] that contains the
    character '@' (written [a ++ "@" ++ b]) and every string [v], the
    generic setter called as [set(k, v)] takes the group branch: it is
    [setGroupPlugin(k, v, undefined)] and returns without an error.  For
    [v] other than [__proto__] the object of the group [k] then has the own
    property [v] with the value [undefined]; in every case its other
    properties and its prototype are as before.  Whatever the third
    argument, [globalSettings] is unchanged, so such a key cannot be given a
    string value through [set]. *)
Theorem set_dispatches_jid_to_group (a b v : string) (x : value)
    (persist : bool) (now : N) (w : world) :
  let k := a ++ String "@" b in
  let r := set k (JStr v) JUndefined persist now w in
  set k (JStr v) x persist now w = setGroupPlugin k v x persist now w
  ∧ r.1 = Returned (Data JUndefined)
  ∧ (∃ g', groupSettings (db r.2) = <[k := g']> (groupSettings (db w))
           ∧ (v ≠ "__proto__" → stores (group_object k (db w)) g' v JUndefined)
           ∧ (∀ p, p ≠ v → own g' !! p = own (group_object k (db w)) !! p)
           ∧ proto g' = proto (group_object k (db w)))
  ∧ globalSettings (db r.2) = globalSettings (db w)
  ∧ globalSettings (db (set k (JStr v) x persist now w).2) = globalSettings (db w).
Proof.
  intros k r. subst r.
  assert (Hjid : _isJid (JStr k) = true).
  { unfold _isJid, k. by rewrite includes_char_app, orb_true_r. }
  unfold set. rewrite Hjid. split; [done|].
  unfold setGroupPlugin, bind, exec, ret; simpl.
  autorewrite with persist; simpl.
  split; [done|]. split; [|done].
  unfold write_group; simpl. eexists. split; [reflexivity|].
  split; [apply assign_stores|]. split; [intros p; apply assign_others|].
  apply assign_undefined_proto.
Qed.

(** [set("123@g.us", "__proto__")] on a fresh store stores nothing: the
    assignment reaches the setter of [Object.prototype], which drops
    [undefined]. *)
Lemma set_proto_stores_nothing : ¬ set_stores_undefined "123@g.us" "__proto__".
Proof.
  intros H. specialize (H true 0%N (boot no_options 0 ∅ None)).
  vm_compute in H. discriminate.
Qed.

(** ** getMultiple *)

Lemma present_prop obj key :
  present obj key = if defined (prop obj key) then Some (prop obj key) else None.
Proof. unfold present. by destruct (prop obj key) as [[]|]. Qed.

Lemma assign_result_lookup out k r key :
  key ≠ "__proto__" →
  res_own (assign_result out k r) !! key
  = if decide (key = k) then Some r else res_own out !! key.
Proof.
  intros Hkey. unfold assign_result.
  destruct (String.eqb_spec k "__proto__") as [->|Hk]; cbn [andb].
  - rewrite decide_False by done.
    destruct (result_has_proto_accessor out).
    + by destruct (typeof_reading r).
    + simpl. by rewrite lookup_insert_ne.
  - simpl. destruct (decide (key = k)) as [->|Hne].
    + by rewrite lookup_insert_eq.
    + by rewrite lookup_insert_ne.
Qed.

Lemma getMultiple_lookup (f : string → reading) keys out key :
  key ≠ "__proto__" →
  res_own (foldl (λ out k, assign_result out k (f k)) out keys) !! key
  = if decide (key ∈ keys) then Some (f key) else res_own out !! key.
Proof.
  intros Hkey. revert out. induction keys as [|k keys IH]; intros out; cbn [foldl].
  - by rewrite decide_False by apply not_elem_of_nil.
  - rewrite IH. destruct (decide (key ∈ keys)) as [Hin|Hin].
    + by rewrite decide_True by (by right).
    + rewrite assign_result_lookup by done.
      destruct (decide (key = k)) as [->|Hne].
      * by rewrite decide_True by left.
      * rewrite decide_False; [done|]. by intros [?|?]%elem_of_cons.
Qed.

Lemma resolve_resolve_spec jid defaults s key :
  resolve (match jid with
           | Some j => if j =? EmptyString then None else groupSettings s !! j
           | None => None
           end) defaults s key
  = normalized defaults key (resolve_spec jid defaults s key).
Proof.
  unfold resolve.
  assert (∀ a b : reading,
            a = b →
            (if is_boolean (prop defaults key) then Data (JBool (toBool a)) else a)
            = normalized defaults key b) as Hc.
  { intros ?? ->. unfold normalized, is_boolean. rewrite toBool_truth_table.
    by destruct (typeof_reading _). }
  apply Hc. clear Hc. unfold resolve_spec.
  destruct jid as [j|]; simpl.
  - destruct (String.eqb_spec j EmptyString) as [->|Hj].
    + rewrite decide_True by done. simpl. rewrite present_prop. by case_match.
    + rewrite decide_False by done.
      destruct (groupSettings s !! j) as [g|]; simpl;
        rewrite !present_prop; by repeat case_match.
  - rewrite !present_prop; by repeat case_match.
Qed.

(** Claim C2, as the code has it.  For every scope, every key list and
    every defaults object, [getMultiple] gives each listed key other than
    [__proto__] the value read from the object of the group (when the scope
    is not empty and the group exists) if that is not [undefined], else the
    value read from the global settings if that is not [undefined], else
    [defaults[key]]; every read is a property read, so it also finds what
    the object inherits.  When [defaults[key]] is a boolean the result is
    the boolean that the truth table of the specification gives for this
    value; so a string that spells "true", "1", "yes" or "on" in any letter
    case gives [true]. *)
Theorem getMultiple_resolves (s : SettingsDB) (jid : option string)
    (keys : list string) (defaults : dict) (key : string) :
  key ∈ keys →
  key ≠ "__proto__" →
  let r := resolve_spec jid defaults s key in
  let out := res_own (getMultiple jid keys defaults s) in
  out !! key = Some (match typeof_reading (prop defaults key) with
                     | TBoolean => Data (JBool (truth_table r))
                     | _ => r
                     end)
  ∧ (typeof_reading (prop defaults key) = TBoolean →
     ∃ b, out !! key = Some (Data (JBool b)))
  ∧ (typeof_reading (prop defaults key) = TBoolean →
     ∀ word t, word ∈ ["true"; "1"; "yes"; "on"] → any_case word t = true →
               r = Data (JStr t) → out !! key = Some (Data (JBool true))).
Proof.
  intros Hkey Hproto r out.
  assert (Hout : out !! key = Some (normalized defaults key r)).
  { unfold out, getMultiple. rewrite getMultiple_lookup by done.
    rewrite decide_True by done. by rewrite resolve_resolve_spec. }
  unfold normalized in Hout.
  split; [done|]. split.
  - intros Hty. rewrite Hty in Hout. eauto.
  - intros Hty word t Hword Hcase Hr. rewrite Hty, Hr in Hout.
    rewrite Hout. do 3 f_equal. unfold truth_table.
    apply existsb_exists. exists word. split; [|done].
    by apply list_elem_of_In.
Qed.

(** Three calls at which C2, as stated, fails.  A group that stores
    [autoread] only is asked for [toString] with the default [false]: the
    read finds the function that the object inherits, and the result is
    [true].  A group whose identifier is the empty string is not consulted.
    The key [__proto__], stored in the global settings of a new store, is
    not an own property of the result. *)
Lemma getMultiple_reads_beyond_stored_settings :
  let fresh := boot no_options 0 ∅ None in
  let s1 := db (invoke (SetGroupPlugin "123@g.us" "autoread" (JBool true)) false 1 fresh).2 in
  let s2 := db (invoke (SetGroupPlugin "" "autoread" (JBool true)) false 1 fresh).2 in
  let s3 := db (invoke (SetGlobal "__proto__" (JStr "x")) false 1 fresh).2 in
  ¬ getMultiple_as_stated (Some "123@g.us") ["toString"]
      (plain {[ "toString" := JBool false ]}) s1
  ∧ ¬ getMultiple_as_stated (Some "") ["autoread"]
        (plain {[ "autoread" := JBool false ]}) s2
  ∧ ¬ getMultiple_as_stated None ["__proto__"] empty_object s3.
Proof.
  intros fresh s1 s2 s3. repeat split.
  - intros H. specialize (H "toString" ltac:(by left)).
    vm_compute in H. discriminate.
  - intros H. specialize (H "autoread" ltac:(by left)).
    vm_compute in H. discriminate.
  - intros H. specialize (H "__proto__" ltac:(by left)).
    vm_compute in H. discriminate.
Qed.

(** ** The setters *)

#[local] Arguments group_object : simpl never.
#[local] Arguments prop : simpl never.
#[local] Arguments assign : simpl never.

Ltac run_setter :=
  unfold invoke, setGlobal, setGroupPlugin, toggleGlobal, toggleGroupPlugin,
    setGroupPluginConfig, deleteGroup, bind, exec, read, ret, throw; simpl.

Ltac settle_setter :=
  run_setter; unfold global_written, group_written, stamped, scope_token;
  autorewrite with persist; simpl; rewrite ?on_capture_db, ?on_capture_emitted.

Ltac solve_stamp := eexists; split; apply lookup_insert_eq.

Lemma write_group_written j k v s :
  ∃ g', groupSettings (write_group j k v s) = <[j := g']> (groupSettings s)
        ∧ (k ≠ "__proto__" → stores (group_object j s) g' k v)
        ∧ (∀ p, p ≠ k → own g' !! p = own (group_object j s) !! p).
Proof.
  eexists. split; [reflexivity|]. split.
  - apply assign_stores.
  - intros p. apply assign_others.
Qed.

Lemma write_group_read j k v s :
  k ≠ "__proto__" → prop (group_object j (write_group j k v s)) k = Data v.
Proof.
  intros Hk. unfold write_group, group_object; simpl.
  rewrite lookup_insert_eq; simpl.
  unfold prop. destruct (assign_stores (default empty_object (groupSettings s !! j)) k v Hk) as [-> _].
  by rewrite lookup_insert_eq.
Qed.

Lemma array_items_lookup (l : list value) i :
  array_items l !! pretty i = l !! i.
Proof.
  unfold array_items.
  assert (∀ (n : nat) (l : list value),
            (list_to_map (imap (λ i x, (pretty (n + i), x)) l) : gmap string value)
              !! pretty (n + i) = l !! i) as H.
  { clear. intros n l. revert n i. induction l as [|x l IH]; intros n i; [done|].
    cbn [imap]. rewrite list_to_map_cons. destruct i as [|i].
    - rewrite Nat.add_0_r. by rewrite lookup_insert_eq.
    - rewrite lookup_insert_ne by (intros ?%(inj pretty); lia).
      change ((x :: l) !! S i) with (l !! i). rewrite <- (IH (S n) i).
      replace (n + S i) with (S n + i) by lia. f_equal. f_equal.
      apply imap_ext. intros j y _. simpl. do 2 f_equal. lia. }
  apply (H 0).
Qed.

(** Claim C1, as the code has it.  [setGlobal], [setGroupPlugin],
    [setGroupPluginConfig] (given an object or an array), [toggleGlobal] and
    [toggleGroupPlugin] assign the value in memory, stamp the touched
    (scope token, key) with the clock reading, raise the dirty flag and emit
    an [update] event.  For a key other than [__proto__] the assignment
    makes the key an own property with that value; for every key it leaves
    the other own properties alone.  The toggles negate the truth value of
    what the getter reads, the configuration setter stores the properties of
    its argument over those of the object it finds, and throws on anything
    but an object.  [deleteGroup] removes the group and the stamps filed
    under its identifier, raises the dirty flag and emits [deleteGroup], not
    [update].  Each of them calls [save] exactly when [persist] is set, and
    with [persist] unset leaves the storage, the save flags and a suspended
    save that has produced its text alone. *)
Theorem setters_effects (c : call) (persist : bool) (now : N) (w : world) :
  let w' := (invoke c persist now w).2 in
  let quiet := (invoke c false now w).2 in
  match c with
  | SetGlobal k v => global_written k v now w w'
  | SetGroupPlugin j k v => group_written j k v (Data v) now w w'
  | SetGroupPluginConfig j k cfg =>
      match cfg with
      | JObj props =>
          ∃ merged r,
            (∀ p x, props !! p = Some x → merged !! p = Some x)
            ∧ (∀ prev p, get_group j k (db w) = Data (JObj prev) →
                         props !! p = None → merged !! p = prev !! p)
            ∧ group_written j k (JObj merged) r now w w'
            ∧ (k ≠ "__proto__" → r = Data (JObj merged))
      | JArr items =>
          ∃ merged r,
            (∀ i x, items !! i = Some x → merged !! pretty i = Some x)
            ∧ group_written j k (JObj merged) r now w w'
            ∧ (k ≠ "__proto__" → r = Data (JObj merged))
      | _ => (invoke c persist now w).1 = Thrown ConfigNotObject ∧ w' = w
      end
  | ToggleGlobal k =>
      let next := JBool (negb (truthy (get_global k (db w)))) in
      global_written k next now w w'
      ∧ (invoke c persist now w).1 = Returned (Data next)
  | ToggleGroupPlugin j k =>
      let next := JBool (negb (truthy (get_group j k (db w)))) in
      group_written j k next (Data next) now w w'
      ∧ (invoke c persist now w).1 = Returned (Data next)
  | DeleteGroup j =>
      groupSettings (db w') = delete j (groupSettings (db w))
      ∧ updateTimes (db w') = delete j (updateTimes (db w))
      ∧ globalSettings (db w') = globalSettings (db w)
      ∧ _dirty (db w') = true
      ∧ emitted w' = EvDeleteGroup j :: emitted w
  | SetAny _ _ _ => True
  end
  ∧ w' = match (invoke c persist now w).1 with
         | Returned _ => persist_if persist quiet
         | Thrown _ => w
         end
  ∧ journal quiet = journal w ∧ disk quiet = disk w ∧ remote quiet = remote w
  ∧ immediates quiet = immediates w
  ∧ _saving (db quiet) = _saving (db w)
  ∧ _pendingSave (db quiet) = _pendingSave (db w)
  ∧ (text_produced (inflight w) → inflight quiet = inflight w).
Proof.
  intros w' quiet. subst w' quiet. split.
  - destruct c as [k v|j k v|j k cfg|k|j k|j|a b v]; try exact I.
    + settle_setter. repeat split; try solve_stamp.
      * by apply assign_stores.
      * by apply assign_stores.
      * intros p. apply assign_others.
    + settle_setter. repeat split; try solve_stamp.
      apply write_group_written.
    + destruct cfg as [| | | | | |cfg|l]; try (by run_setter).
      * settle_setter.
        exists (cfg ∪ spread_reading (js_or (prop (group_object j (db w)) k)
                                            (Data (JObj ∅)))).
        eexists. split; [|split; [|split]].
        -- intros p x Hp. apply lookup_union_Some_l, Hp.
        -- intros prev p Hprev Hp. unfold get_group, get in Hprev.
           rewrite Hprev. unfold js_or. cbn [truthy Boolean spread_reading spread].
           rewrite lookup_union_r; done.
        -- repeat split; try solve_stamp. apply write_group_written.
        -- intros Hk. by apply write_group_read.
      * settle_setter.
        exists (array_items l ∪ spread_reading (js_or (prop (group_object j (db w)) k)
                                                      (Data (JObj ∅)))).
        eexists. split; [|split].
        -- intros i x Hi. apply lookup_union_Some_l.
           by rewrite array_items_lookup.
        -- repeat split; try solve_stamp. apply write_group_written.
        -- intros Hk. by apply write_group_read.
    + settle_setter. repeat split; try solve_stamp.
      * by apply assign_stores.
      * by apply assign_stores.
      * intros p. apply assign_others.
    + settle_setter. repeat split; try solve_stamp.
      apply write_group_written.
    + settle_setter. done.
  - destruct c as [k v|j k v|j k cfg|k|j k|j|a b v]; run_setter; try done.
    + by destruct cfg.
    + rewrite !on_capture_db. repeat split; try done.
      * unfold on_capture. by repeat case_match.
      * unfold on_capture. by repeat case_match.
      * unfold on_capture. by repeat case_match.
      * unfold on_capture. by repeat case_match.
      * unfold on_capture, text_produced. by repeat case_match.
    + unfold set. by repeat case_match; run_setter.
Qed.

(** Two calls at which C1, as stated, fails.  On a fresh store
    [deleteGroup("123@g.us")] emits [deleteGroup] and no [update] event, and
    [setGroupPlugin("123@g.us", "__proto__", 1)] stores nothing: reading the
    key afterwards gives [Object.prototype]. *)
Lemma mutations_not_as_stated :
  ¬ emits_update (DeleteGroup "123@g.us")
  ∧ ¬ group_holds "123@g.us" "__proto__" (JNum 1).
Proof.
  split.
  - intros H.
    destruct (H true 0%N (boot no_options 0 ∅ None)) as (e & He & Hu).
    vm_compute in He. injection He as <-. discriminate.
  - intros H. specialize (H true 0%N (boot no_options 0 ∅ None)).
    vm_compute in H. discriminate.
Qed.

(** ** Replaying setter calls *)

Lemma stamps_insert (u1 u2 : gmap string (gmap string N)) scope key t1 t2 :
  stamp_keys <$> u1 = stamp_keys <$> u2 →
  stamp_keys <$> <[scope := <[key := t1]> (default ∅ (u1 !! scope))]> u1
  = stamp_keys <$> <[scope := <[key := t2]> (default ∅ (u2 !! scope))]> u2.
Proof.
  intros H.
  assert (Hm : stamp_keys (default ∅ (u1 !! scope))
               = stamp_keys (default ∅ (u2 !! scope))).
  { apply (f_equal (λ m, m !! scope)) in H. rewrite !lookup_fmap in H.
    destruct (u1 !! scope), (u2 !! scope); simpl in *; congruence. }
  rewrite !fmap_insert, H. f_equal.
  unfold stamp_keys in *. by rewrite !fmap_insert, Hm.
Qed.

Lemma stamps_delete (u1 u2 : gmap string (gmap string N)) scope :
  stamp_keys <$> u1 = stamp_keys <$> u2 →
  stamp_keys <$> delete scope u1 = stamp_keys <$> delete scope u2.
Proof. intros H. by rewrite !fmap_delete, H. Qed.

Ltac close_alike Hg Hgr Hs :=
  unfold alike, stamps in *; autorewrite with persist; simpl;
  rewrite ?on_capture_db;
  unfold write_group, group_object; simpl; rewrite ?Hg, ?Hgr;
  repeat split; first [ done | by apply stamps_insert | by apply stamps_delete ].

Lemma alike_invoke c persist t1 t2 w1 w2 :
  alike w1 w2 → alike (invoke c persist t1 w1).2 (invoke c persist t2 w2).2.
Proof.
  intros (Hg & Hgr & Hs).
  destruct c as [k v|j k v|j k cfg|k|j k|j|a b v];
    [| | destruct cfg | | | | unfold invoke, set; repeat case_match];
    run_setter; close_alike Hg Hgr Hs.
Qed.

Lemma alike_replay cs clock1 clock2 i w1 w2 :
  alike w1 w2 → alike (replay cs clock1 i w1) (replay cs clock2 i w2).
Proof.
  revert i w1 w2. induction cs as [|[c p] cs IH]; intros i w1 w2 H; simpl.
  - done.
  - apply IH. by apply alike_invoke.
Qed.

Lemma same_clock_invoke c persist now w1 w2 :
  snapshot_of (db w1) = snapshot_of (db w2) →
  snapshot_of (db (invoke c persist now w1).2)
  = snapshot_of (db (invoke c persist now w2).2).
Proof.
  unfold snapshot_of. intros [= Hg Hgr Hu].
  destruct c as [k v|j k v|j k cfg|k|j k|j|a b v];
    [| | destruct cfg | | | | unfold invoke, set; repeat case_match];
    run_setter; autorewrite with persist; simpl; rewrite ?on_capture_db;
    unfold write_group, group_object, _setUpdateTime; simpl;
    by rewrite ?Hg, ?Hgr, ?Hu.
Qed.

Lemma same_clock_replay cs clock i w1 w2 :
  snapshot_of (db w1) = snapshot_of (db w2) →
  snapshot_of (db (replay cs clock i w1)) = snapshot_of (db (replay cs clock i w2)).
Proof.
  revert i w1 w2. induction cs as [|[c p] cs IH]; intros i w1 w2 H; simpl.
  - done.
  - apply IH. by apply same_clock_invoke.
Qed.

(** Claim C8, as the code has it.  Replaying the same setter calls on two
    fresh stores gives the same GlobalSettings and the same GroupSettings and
    stamps the same (scope, key) pairs; the timestamps are the clock readings
    of each replay, so the whole Snapshot, UpdateTimestamps included, is the
    same when both replays read the same clock. *)
Theorem replay_deterministic_up_to_clock (cs : list (call * bool))
    (clock1 clock2 : nat → N) (opts1 opts2 : options) (t1 t2 : N)
    (files1 files2 : gmap string content) (row1 row2 : option document) :
  let fresh1 := boot opts1 t1 files1 row1 in
  let fresh2 := boot opts2 t2 files2 row2 in
  globalSettings (db (replay cs clock1 0 fresh1))
  = globalSettings (db (replay cs clock2 0 fresh2))
  ∧ groupSettings (db (replay cs clock1 0 fresh1))
    = groupSettings (db (replay cs clock2 0 fresh2))
  ∧ stamps (db (replay cs clock1 0 fresh1)) = stamps (db (replay cs clock2 0 fresh2))
  ∧ snapshot_of (db (replay cs clock1 0 fresh1))
    = snapshot_of (db (replay cs clock1 0 fresh2)).
Proof.
  intros fresh1 fresh2.
  destruct (alike_replay cs clock1 clock2 0 fresh1 fresh2) as (Hg & Hgr & Hs);
    [done|].
  repeat split; try done. by apply same_clock_replay.
Qed.

(** [setGlobal("autoread", true)] replayed at clock reading 1 and at clock
    reading 2 leaves different UpdateTimestamps. *)
Lemma replay_depends_on_clock :
  let cs := [(SetGlobal "autoread" (JBool true), true)] in
  let fresh := boot no_options 0 ∅ None in
  snapshot_of (db (replay cs (λ _, 1%N) 0 fresh))
  ≠ snapshot_of (db (replay cs (λ _, 2%N) 0 fresh)).
Proof.
  intros cs fresh H.
  apply (f_equal (λ s, s.2 !! "global" ≫= (.!! "autoread"))) in H.
  vm_compute in H. discriminate.
Qed.

(** ** What a setter call touches *)


Lemma on_capture_frame f w :
  journal (on_capture f w) = journal w
  ∧ immediates (on_capture f w) = immediates w
  ∧ disk (on_capture f w) = disk w ∧ remote (on_capture f w) = remote w
  ∧ console (on_capture f w) = console w
  ∧ (is_Some (inflight (on_capture f w)) ↔ is_Some (inflight w))
  ∧ (text_produced (inflight w) → inflight (on_capture f w) = inflight w).
Proof.
  unfold on_capture, text_produced.
  destruct (inflight w) as [[]|] eqn:Hj; simpl; rewrite ?Hj;
    repeat split; try done; intros; by eauto.
Qed.


Lemma invoke_dirty c persist now w :
  _dirty (db (invoke c persist now w).2) = true
  ∨ ((∃ e, (invoke c persist now w).1 = Thrown e) ∧ (invoke c persist now w).2 = w).
Proof.
  destruct c as [k v|j k v|j k cfg|k|j k|j|a b v]; run_setter;
    autorewrite with persist; simpl; eauto.
  - destruct cfg; simpl; autorewrite with persist; simpl; eauto.
  - unfold set. repeat case_match; run_setter; autorewrite with persist; simpl; eauto.
Qed.

(** ** The save machine *)

(** A request that arrives while a write is in flight only raises the
    pending flag. *)
Lemma save_while_saving w :
  _saving (db w) = true →
  save w = upd_db (set_pendingSave true) w.
Proof. intros H. unfold save. by rewrite H. Qed.

(** Case analysis on a world whose fields are laid open. *)
Ltac open_world w :=
  let s := fresh "s" in
  destruct w as [s ? ? ? ? ? ? ?];
  destruct s as [? ? ? ? ? ? ? ? ? ? ? ? ?].

Ltac run_machine :=
  unfold save_await, settle, resume, awaited, io_done, _remoteSave, remote_write,
    send, failed, save, save_succeeded, save_failed, start, bind,
    initClientsIfNeeded, init_finish, init_start, _initDbClients; simpl.

Ltac crunch := repeat (case_match; simplify_eq; simpl in *; auto); try congruence.

Lemma io_done_dirty ok w :
  (_dirty (db (io_done ok w).2) = _dirty (db w) ∧ emitted (io_done ok w).2 = emitted w)
  ∨ emitted (io_done ok w).2 = EvSaved :: emitted w.
Proof.
  open_world w. unfold io_done, _remoteSave, remote_write,
    send, failed, save_succeeded, save_failed, start,
    init_finish, init_start, _initDbClients; simpl.
  crunch.
Qed.

(** ** Loading *)

Ltac run_load :=
  unfold load, load_local, load_failed, _writeInitialFile, populate, readFile,
    JSON_parse, backup, file_exists, adopt, log, upd_db, try_catch, bind, exec,
    read, ret, throw; simpl.

(** Asking the external backend touches the driver, the console and
    nothing else. *)
Lemma fetch_remote_frame o w :
  ∃ t m l, (fetch_remote o w).2
           = set_console (l ++ console w)%list
               (upd_db (set_mongoDb m) (upd_db (set_dbType t) w)).
Proof.
  open_world w. destruct o.
  unfold fetch_remote, _remoteLoad, try_catch, bind, exec, ret, log,
    initClientsIfNeeded, init_finish, init_start, _initDbClients; simpl.
  crunch; unfold set_console, upd_db, set_db, set_dbType, set_mongoDb; simpl;
    first [ eexists _, _, []; reflexivity | eexists _, _, [_]; reflexivity ].
Qed.

(** [load] after its first block has run. *)
Lemma load_unfold now o w :
  load now o w
  = match fetch_remote o w with
    | (Returned (Some d), w1) =>
        (Returned true, upd_db (adopt d now) (on_capture freeze w1))
    | (Returned None, w1) =>
        match load_local now o w1 with
        | (Returned b, w2) => (Returned b, w2)
        | (Thrown e, w2) => load_failed now o e w2
        end
    | (Thrown e, w1) => load_failed now o e w1
    end.
Proof.
  unfold load, try_catch, bind at 1.
  destruct (fetch_remote o w) as [[[d|]|e] w1]; reflexivity.
Qed.

Ltac split_load now o w :=
  let t := fresh "t" in
  let m := fresh "m" in
  let l := fresh "l" in
  let Hf := fresh "Hf" in
  let r := fresh "r" in
  let w1 := fresh "w" in
  rewrite ?(load_unfold now o w) in *;
  destruct (fetch_remote_frame o w) as (t & m & l & Hf);
  destruct (fetch_remote o w) as [r w1] eqn:?;
  simpl in Hf; subst w1.

Lemma _writeInitialFile_returns o w :
  ∃ w', _writeInitialFile o w = (Returned tt, w').
Proof.
  unfold _writeInitialFile, bind, exec, try_catch. simpl.
  destruct (save_await o _) as [[[]|e] w']; eauto.
Qed.

(** [load] never rejects; when it reports failure it has changed neither
    the settings nor the flags, and has started no write. *)
Lemma load_cases now o w :
  (load now o w).1 = Returned true
  ∨ ((load now o w).1 = Returned false
     ∧ snapshot_of (db (load now o w).2) = snapshot_of (db w)
     ∧ _dirty (db (load now o w).2) = _dirty (db w)
     ∧ emitted (load now o w).2 = emitted w
     ∧ journal (load now o w).2 = journal w
     ∧ inflight (load now o w).2 = inflight w).
Proof.
  split_load now o w. destruct r as [[d|]|e]; [by left| |].
  - clear Heqp. unfold load_local, bind, read, file_exists.
    destruct (bool_decide _) eqn:Hex; cbn [negb fst snd].
    + open_world w. destruct o. run_load. unfold snapshot_of.
      simpl in Hex. rewrite ?Hex.
      crunch; first [by left | right; by repeat split].
    + left. destruct (_writeInitialFile_returns o
                        (set_console (l ++ console w)
                           (upd_db (set_mongoDb m) (upd_db (set_dbType t) w))))
        as [w2 ->]. reflexivity.
  - clear Heqp. open_world w. destruct o. run_load. unfold snapshot_of.
    crunch; right; by repeat split.
Qed.

(** ** The dirty flag *)

Lemma configure_frame opts w :
  _dirty (db (configure opts w)) = _dirty (db w)
  ∧ emitted (configure opts w) = emitted w
  ∧ snapshot_of (db (configure opts w)) = snapshot_of (db w).
Proof. unfold configure. by repeat case_match. Qed.

Lemma init_unfold opts now o w :
  (init opts now o w).2 = (load now o (configure opts w)).2
  ∧ (init opts now o w).1
    = match (load now o (configure opts w)).1 with
      | Returned _ => Returned tt
      | Thrown e => Thrown e
      end.
Proof.
  unfold init, bind, exec, ret; simpl.
  by destruct (load now o (configure opts w)) as [[] ?].
Qed.

(** Claim C9, as the code has it.  The dirty flag falls from true to false
    only in a step in which a physical write succeeds (the step emits
    [saved]) or in which [load] succeeds; every setter call that returns
    raises it. *)
Theorem dirty_flag_transitions (a : op) (w : world) :
  (_dirty (db w) = true → _dirty (db (step a w)) = false →
   (∃ new, emitted (step a w) = (new ++ emitted w)%list ∧ EvSaved ∈ new)
   ∨ load_result a w = Some (Returned true))
  ∧ (∀ c persist now v,
       a = Call c persist now → (invoke c persist now w).1 = Returned v →
       _dirty (db (step a w)) = true).
Proof.
  split.
  - intros Hd Hc. destruct a as [c persist now| | |ok| |now o|opts now o|]; simpl in *.
    + destruct (invoke_dirty c persist now w) as [H|[_ H]]; rewrite H in Hc; congruence.
    + rewrite save_dirty in Hc. congruence.
    + unfold _autoSave in Hc. repeat case_match; rewrite ?save_dirty in Hc; congruence.
    + destruct (io_done_dirty ok w) as [[H _]|H]; [congruence|].
      left. exists [EvSaved]. split; [done|]. by left.
    + unfold run_immediate in Hc.
      destruct (immediates w); [congruence|].
      rewrite save_dirty in Hc. simpl in Hc. congruence.
    + destruct (load_cases now o w) as [H|(_ & _ & H & _)]; [|congruence].
      right. by rewrite H.
    + destruct (init_unfold opts now o w) as [H2 _]. rewrite H2 in Hc.
      destruct (configure_frame opts w) as (Hcd & _ & _).
      destruct (load_cases now o (configure opts w)) as [H|(_ & _ & H & _)];
        [|congruence].
      right. by rewrite H.
    + rewrite save_dirty in Hc. congruence.
  - intros c persist now v -> Hret. simpl.
    destruct (invoke_dirty c persist now w) as [H|[[e He] _]]; [done|congruence].
Qed.

(** A store made dirty by [setGlobal] with persistence suppressed, on a disk
    that holds a settings document: [load] clears the flag, and nothing is
    written. *)
Lemma load_clears_dirty : ¬ cleared_only_by_write.
Proof.
  intros H.
  set (doc := Document empty_document).
  set (w := (setGlobal "autoread" (JBool true) false 1
               (boot no_options 0 {[ DEFAULT_FILE := doc ]} None)).2).
  destruct (H (Load 2 all_ok) w) as (new & Hnew & Hin).
  - reflexivity.
  - reflexivity.
  - assert (new = []) as ->.
    { assert (Hem : emitted (step (Load 2 all_ok) w) = emitted w)
        by (vm_compute; reflexivity).
      rewrite Hem in Hnew. apply (f_equal length) in Hnew.
      rewrite length_app in Hnew. destruct new; [done|simpl in Hnew; lia]. }
    by apply not_elem_of_nil in Hin.
Qed.

(** ** One await of a suspended save *)

Lemma io_done_stage ok w j :
  inflight w = Some j →
  unmoved w (io_done ok w).2
  ∧ match (io_done ok w).1 with
    | None =>
        ∃ j', inflight (io_done ok w).2 = Some j'
              ∧ awaits_left j' < awaits_left j
              ∧ _saving (db (io_done ok w).2) = _saving (db w)
              ∧ _pendingSave (db (io_done ok w).2) = _pendingSave (db w)
              ∧ immediates (io_done ok w).2 = immediates w
              ∧ _dirty (db (io_done ok w).2) = _dirty (db w)
              ∧ emitted (io_done ok w).2 = emitted w
              ∧ ((journal (io_done ok w).2 = journal w
                  ∧ text_due j' (db (io_done ok w).2) = text_due j (db w))
                 ∨ (∃ text, text_due j (db w) = Some text
                            ∧ journal (io_done ok w).2 = text :: journal w
                            ∧ text_due j' (db (io_done ok w).2) = None))
    | Some (Returned _) =>
        inflight (io_done ok w).2 = None
        ∧ _saving (db (io_done ok w).2) = false
        ∧ _dirty (db (io_done ok w).2) = false
        ∧ _pendingSave (db (io_done ok w).2) = false
        ∧ immediates (io_done ok w).2
          = (if _pendingSave (db w) then S (immediates w) else immediates w)
        ∧ emitted (io_done ok w).2 = EvSaved :: emitted w
        ∧ journal (io_done ok w).2 = journal w
        ∧ (text_due j (db w) = None ∨ _useDb (db w) = false)
    | Some (Thrown e) =>
        inflight (io_done ok w).2 = None
        ∧ _saving (db (io_done ok w).2) = false
        ∧ _dirty (db (io_done ok w).2) = _dirty (db w)
        ∧ _pendingSave (db (io_done ok w).2) = _pendingSave (db w)
        ∧ immediates (io_done ok w).2 = immediates w
        ∧ emitted (io_done ok w).2 = emitted w
        ∧ journal (io_done ok w).2 = journal w
    end.
Proof.
  intros Hj. open_world w. simpl in Hj. subst.
  unfold unmoved, snapshot_of, io_done, _remoteSave, remote_write, send, failed,
    save_succeeded, save_failed, start, init_finish, init_start, _initDbClients.
  simpl.
  destruct j as [tmp text|tmp target|c r|c r|c [path|]|payload target];
    crunch; (split; [done|]);
    first [ by repeat split; auto
          | repeat split; try done; right;
            match goal with H : negb ?b = true |- _ => by destruct b end
          | eexists; split; [reflexivity|]; simpl;
            repeat (split; [first [lia|done]|]);
            first [ by left | right; eexists; by repeat split ] ].
Qed.

Lemma unmoved_trans w1 w2 w3 : unmoved w1 w2 → unmoved w2 w3 → unmoved w1 w3.
Proof. unfold unmoved. intros (?&?&?&?&?) (?&?&?&?&?). repeat split; congruence. Qed.

Lemma awaits_left_pos j : (0 < awaits_left j)%nat.
Proof. destruct j; simpl; lia. Qed.

(** A suspended save runs to its end: it settles, having handed over at
    most its own text. *)
Lemma resume_spec n o w j :
  inflight w = Some j → (awaits_left j ≤ n)%nat →
  let r := resume n o w in
  inflight r.2 = None ∧ _saving (db r.2) = false ∧ unmoved w r.2
  ∧ (journal r.2 = journal w
     ∨ ∃ text, text_due j (db w) = Some text ∧ journal r.2 = text :: journal w)
  ∧ match r.1 with
    | Returned _ =>
        _dirty (db r.2) = false
        ∧ _pendingSave (db r.2) = false
        ∧ immediates r.2 = (if _pendingSave (db w) then S (immediates w) else immediates w)
        ∧ emitted r.2 = EvSaved :: emitted w
        ∧ (_useDb (db w) = true →
           ∀ text, text_due j (db w) = Some text → journal r.2 = text :: journal w)
    | Thrown _ =>
        _dirty (db r.2) = _dirty (db w)
        ∧ _pendingSave (db r.2) = _pendingSave (db w)
        ∧ immediates r.2 = immediates w
        ∧ emitted r.2 = emitted w
    end.
Proof.
  revert w j. induction n as [|n IH]; intros w j Hj Hn.
  { pose proof (awaits_left_pos j). lia. }
  cbn [resume].
  destruct (io_done_stage (awaited o w) w j Hj) as [Hun Hst].
  destruct (io_done (awaited o w) w) as [[[[]|e]|] w'] eqn:Hio; cbn [fst snd] in *.
  - destruct Hst as (Hi & Hs & Hd & Hp & Him & Hem & Hjo & Htext).
    do 3 (split; [done|]). split; [by left|].
    repeat split; try done.
    intros Hdb text Ht. destruct Htext; congruence.
  - destruct Hst as (Hi & Hs & Hd & Hp & Him & Hem & Hjo).
    do 3 (split; [done|]). split; [by left|]. by repeat split.
  - destruct Hst as (j' & Hj' & Hlt & Hs & Hp & Him & Hd & Hem & Hjo).
    rewrite Hj'.
    destruct (IH w' j' Hj' ltac:(lia)) as (Hi2 & Hs2 & Hun2 & Hjo2 & Hres).
    split; [done|]. split; [done|].
    split; [by apply (unmoved_trans w w')|].
    destruct Hun as (Hsn & Hdb & Hun').
    split.
    + destruct Hjo as [[Hsame Htd]|(text & Htd & Hgrow & Hnone)].
      * rewrite Hsame, Htd in Hjo2. done.
      * right. exists text. split; [done|].
        destruct Hjo2 as [->|(text' & Htd' & _)]; [done|congruence].
    + destruct (resume n o w').1.
      * destruct Hres as (? & ? & ? & ? & Htext).
        rewrite Hp, Him, Hem in *. repeat split; try done.
        intros Huse text Ht.
        destruct Hjo as [[Hsame Htd]|(text' & Htd & Hgrow & Hnone)].
        -- rewrite <- Hsame. apply Htext; congruence.
        -- destruct Hjo2 as [->|(text'' & Htd' & _)]; congruence.
      * destruct Hres as (? & ? & ? & ?). repeat split; congruence.
Qed.

(** ** Coalescing of save requests *)

Lemma stringify_snapshot s : stringify (snapshot s) = persisted s.
Proof.
  unfold stringify, snapshot, persisted, json_groups; simpl.
  by rewrite <- map_fmap_compose.
Qed.

Lemma current_capture_of s s' :
  globalSettings s' = globalSettings s → groupSettings s' = groupSettings s →
  stringify (current (capture_of s) s') = persisted s.
Proof.
  intros Hg Hgr. rewrite <- stringify_snapshot.
  unfold current, capture_of, snapshot, captured_global; simpl.
  rewrite Hg. do 2 f_equal. f_equal. apply map_eq. intros i.
  rewrite map_lookup_imap, !lookup_fmap.
  unfold captured_group. rewrite Hgr.
  by destruct (groupSettings s !! i).
Qed.


(** [save()] called while no write is in flight starts one: the local
    store hands the document of the Snapshot to the file system at once,
    the store with an external backend has it to produce. *)
Lemma save_idle w :
  _saving (db w) = false →
  _saving (db (save w)) = true ∧ _pendingSave (db (save w)) = false
  ∧ immediates (save w) = immediates w
  ∧ unmoved w (save w)
  ∧ ∃ j, inflight (save w) = Some j
         ∧ if _useDb (db w)
           then journal (save w) = journal w
                ∧ text_due j (db (save w)) = Some (persisted (db w))
           else journal (save w) = persisted (db w) :: journal w
                ∧ text_due j (db (save w)) = None.
Proof.
  intros Hs. unfold save. rewrite Hs. cbn zeta.
  change (_useDb (db (upd_db (set_pendingSave false) (upd_db (set_saving true) w))))
    with (_useDb (db w)).
  destruct (_useDb (db w)) eqn:Hdb.
  - match goal with |- context [init_start ?x] =>
      destruct (init_start_frame x) as [t Ht]; destruct (init_start x) as [r w1] end.
    simpl in Ht. subst w1. simpl. repeat split; try done.
    eexists. split; [reflexivity|]. split; [done|]. simpl.
    f_equal.
    exact (current_capture_of (set_pendingSave false (set_saving true (db w))) _
             eq_refl eq_refl).
  - simpl. repeat split; try done.
    eexists. split; [reflexivity|]. by rewrite stringify_snapshot.
Qed.



(** A save that is suspended settles within four awaits. *)
Lemma settle_spec o w j :
  inflight w = Some j →
  let r := settle o w in
  inflight r.2 = None ∧ _saving (db r.2) = false ∧ unmoved w r.2
  ∧ (journal r.2 = journal w
     ∨ ∃ text, text_due j (db w) = Some text ∧ journal r.2 = text :: journal w)
  ∧ match r.1 with
    | Returned _ =>
        _dirty (db r.2) = false
        ∧ _pendingSave (db r.2) = false
        ∧ immediates r.2 = (if _pendingSave (db w) then S (immediates w) else immediates w)
        ∧ emitted r.2 = EvSaved :: emitted w
        ∧ (_useDb (db w) = true →
           ∀ text, text_due j (db w) = Some text → journal r.2 = text :: journal w)
    | Thrown _ =>
        _dirty (db r.2) = _dirty (db w)
        ∧ _pendingSave (db r.2) = _pendingSave (db w)
        ∧ immediates r.2 = immediates w
        ∧ emitted r.2 = emitted w
    end.
Proof.
  intros Hj. apply (resume_spec 4 o w j Hj). destruct j; simpl; lia.
Qed.


(** ** Paths *)

Lemma append_ne_self (f s : string) : s ≠ EmptyString → f ++ s ≠ f.
Proof.
  intros Hs. induction f as [|c f IH]; [done|].
  intros [= H]. by apply IH.
Qed.

Lemma corruptPath_ne_file f now : corruptPath f now ≠ f.
Proof. unfold corruptPath. by apply append_ne_self. Qed.

Lemma corruptPath_inj f t1 t2 : corruptPath f t1 = corruptPath f t2 → t1 = t2.
Proof.
  unfold corruptPath. intros H.
  apply (inj (String.app f)) in H. apply (inj (String.app ".corrupt.")) in H.
  by apply (inj pretty) in H.
Qed.

(** ** Equations for the steps of [load] *)

Lemma fetch_remote_local o w :
  _useDb (db w) = false → fetch_remote o w = (Returned None, w).
Proof. intros H. unfold fetch_remote. by rewrite H. Qed.

Lemma load_failed_eq now o e w :
  load_failed now o e w
  = (Returned false,
     match disk w !! file (db w) with
     | Some c =>
         if io_copy o
         then log (LogBackedUp (corruptPath (file (db w)) now))
                (set_disk (<[corruptPath (file (db w)) now := c]> (disk w))
                   (log (LogLoadError e) w))
         else log (LogLoadError e) w
     | None => log (LogLoadError e) w
     end).
Proof.
  unfold load_failed, bind, exec, try_catch, backup, ret.
  cbn [db disk log set_console].
  destruct (disk w !! file (db w)); [destruct (io_copy o)|]; reflexivity.
Qed.

Lemma load_local_corrupt now o w raw :
  disk w !! file (db w) = Some (Corrupt raw) →
  ∃ e, load_local now o w = (Thrown e, w).
Proof.
  intros H. unfold load_local, bind, read, file_exists, readFile.
  rewrite H, bool_decide_true by eauto. cbn [negb]. rewrite H.
  destruct (io_read o); eexists; reflexivity.
Qed.

Lemma load_local_document now o w d :
  disk w !! file (db w) = Some (Document d) → io_read o = true →
  load_local now o w = (Returned true, upd_db (adopt d now) (on_capture freeze w)).
Proof.
  intros H Hr. unfold load_local, bind, read, file_exists, readFile.
  rewrite H, bool_decide_true by eauto. cbn [negb]. by rewrite H, Hr.
Qed.

Lemma load_local_missing now o w :
  disk w !! file (db w) = None →
  load_local now o w
  = let w0 := upd_db (set_updateTimes ∅)
                (upd_db (set_groupSettings ∅)
                   (upd_db (set_globalSettings empty_object)
                      (on_capture freeze w))) in
    match save_await o w0 with
    | (Returned _, w') => (Returned true, w')
    | (Thrown e, w') => (Returned true, log (LogInitialSaveFailed e) w')
    end.
Proof.
  intros H. unfold load_local, bind at 1, read, file_exists. rewrite H. simpl.
  unfold _writeInitialFile, bind, exec, try_catch, ret. simpl.
  by destruct (save_await o _) as [[] ?].
Qed.

(** [load] by what the external backend answers. *)
Lemma load_by_answer now o w :
  ∃ t m l,
    let w1 := set_console (l ++ console w)%list
                (upd_db (set_mongoDb m) (upd_db (set_dbType t) w)) in
    match remote_answer o w with
    | Delivered d =>
        load now o w = (Returned true, upd_db (adopt d now) (on_capture freeze w1))
    | Nothing =>
        load now o w
        = match load_local now o w1 with
          | (Returned b, w2) => (Returned b, w2)
          | (Thrown e, w2) => load_failed now o e w2
          end
    | Failed e => load now o w = load_failed now o e w1
    end.
Proof.
  rewrite load_unfold. unfold remote_answer.
  destruct (fetch_remote_frame o w) as (t & m & l & Hf).
  exists t, m, l. cbn zeta.
  destruct (fetch_remote o w) as [[[d|]|e] w1]; cbn [fst snd] in *; by subst w1.
Qed.

Lemma remote_answer_local o w : _useDb (db w) = false → remote_answer o w = Nothing.
Proof. intros H. unfold remote_answer. by rewrite fetch_remote_local. Qed.

(** A file backend whose text does not parse answers nothing. *)
Lemma remote_answer_corrupt_backend o w u raw :
  _useDb (db w) = true → databaseUrl (db w) = Some u → protocol u = "file" →
  _dbType (db w) = None ∨ _dbType (db w) = Some FileDb →
  disk w !! pathname u = Some (Corrupt raw) →
  remote_answer o w = Nothing.
Proof.
  intros Hdb Hurl Hproto Hty Hfile. destruct u as [proto path].
  open_world w. destruct o. simpl in *. subst.
  unfold remote_answer, fetch_remote, _remoteLoad, try_catch, bind, exec, ret, log,
    initClientsIfNeeded, init_finish, init_start, _initDbClients; simpl.
  destruct Hty as [->| ->]; simpl; rewrite ?Hfile; by repeat case_match.
Qed.

(** [load] on a local file that does not parse. *)
Lemma load_corrupt_cases now o w raw :
  disk w !! file (db w) = Some (Corrupt raw) →
  disk (load now o w).2 !! file (db w) = Some (Corrupt raw)
  ∧ match remote_answer o w with
    | Delivered d =>
        (load now o w).1 = Returned true
        ∧ contents (db (load now o w).2) = contents_of d
        ∧ disk (load now o w).2 = disk w
    | _ =>
        (load now o w).1 = Returned false
        ∧ snapshot_of (db (load now o w).2) = snapshot_of (db w)
        ∧ disk (load now o w).2
          = (if io_copy o
             then <[corruptPath (file (db w)) now := Corrupt raw]> (disk w)
             else disk w)
    end.
Proof.
  intros Hfile.
  destruct (load_by_answer now o w) as (t & m & l & Hload). cbv zeta in Hload.
  set (w1 := set_console _ _) in Hload.
  assert (Hfile1 : disk w1 !! file (db w1) = Some (Corrupt raw)) by exact Hfile.
  assert (Hfail : ∀ e, load_failed now o e w1
            = (Returned false,
               if io_copy o
               then log (LogBackedUp (corruptPath (file (db w)) now))
                      (set_disk (<[corruptPath (file (db w)) now := Corrupt raw]> (disk w))
                         (log (LogLoadError e) w1))
               else log (LogLoadError e) w1)).
  { intros e. rewrite load_failed_eq, Hfile1. reflexivity. }
  destruct (remote_answer o w) as [d| |e].
  - rewrite Hload. cbn [fst snd].
    split; [|split; [done|split]].
    + unfold upd_db, set_db; cbn [disk]. by destruct (on_capture_frame freeze w1) as (_&_&->&_).
    + unfold contents, contents_of, adopt; simpl.
      rewrite <- map_fmap_compose. f_equal. f_equal.
      rewrite (map_fmap_ext _ id); [by rewrite map_fmap_id|done].
    + unfold upd_db, set_db; cbn [disk]. by destruct (on_capture_frame freeze w1) as (_&_&->&_).
  - destruct (load_local_corrupt now o w1 raw Hfile1) as [e He].
    rewrite Hload, He, Hfail. cbn [fst snd].
    destruct (io_copy o); (split; [|by repeat split]).
    + cbn [disk log set_console set_disk].
      rewrite lookup_insert_ne; [done|]. apply corruptPath_ne_file.
    + done.
  - rewrite Hload, Hfail. cbn [fst snd].
    destruct (io_copy o); (split; [|by repeat split]).
    + cbn [disk log set_console set_disk].
      rewrite lookup_insert_ne; [done|]. apply corruptPath_ne_file.
    + done.
Qed.

(** Claim C4, as the code has it.  The local file does not parse.  When the
    external backend delivers a document, [load] populates the store from
    it, returns true and leaves the files alone.  Otherwise [load] returns
    false and leaves GlobalSettings, GroupSettings and UpdateTimestamps as
    they were; when the copy succeeds the only file that changes is
    [file.corrupt.<now>], which then holds the text of the original, over
    what a backup made at the same clock reading may have left there; when
    the copy fails no file changes.  That path differs from the original,
    which stays, and from the path of a backup made at any other clock
    reading.  A store without external backend is never delivered a
    document; a file backend whose own text does not parse answers nothing,
    so that [load] goes on with the local file. *)
Theorem load_backs_up_corrupt_file (now : N) (o : io) (w : world) (raw : string) :
  disk w !! file (db w) = Some (Corrupt raw) →
  let r := load now o w in
  let path := corruptPath (file (db w)) now in
  match remote_answer o w with
  | Delivered d =>
      r.1 = Returned true ∧ contents (db r.2) = contents_of d ∧ disk r.2 = disk w
  | _ =>
      r.1 = Returned false
      ∧ snapshot_of (db r.2) = snapshot_of (db w)
      ∧ disk r.2 = (if io_copy o then <[path := Corrupt raw]> (disk w) else disk w)
  end
  ∧ path ≠ file (db w)
  ∧ disk r.2 !! file (db w) = Some (Corrupt raw)
  ∧ (∀ t, corruptPath (file (db w)) t = path → t = now)
  ∧ (_useDb (db w) = false → remote_answer o w = Nothing)
  ∧ (∀ u raw',
       _useDb (db w) = true → databaseUrl (db w) = Some u → protocol u = "file" →
       _dbType (db w) = None ∨ _dbType (db w) = Some FileDb →
       disk w !! pathname u = Some (Corrupt raw') →
       remote_answer o w = Nothing).
Proof.
  intros Hfile. cbv zeta.
  destruct (load_corrupt_cases now o w raw Hfile) as [Hkeep Hcases].
  split; [done|]. split; [apply corruptPath_ne_file|]. split; [done|].
  split; [intros t'; apply corruptPath_inj|]. split; [apply remote_answer_local|].
  intros u raw'. apply remote_answer_corrupt_backend.
Qed.

(** Four calls at which C4, as stated, fails: a backup made at the same
    clock reading is overwritten and no file is added; the copy fails and no
    backup is made; the HTTP backend delivers a document and [load] returns
    true; the file of a file backend does not parse, and [load] bootstraps
    the missing local file and returns true. *)
Lemma load_not_as_stated_on_corrupt_file :
  let bad := Corrupt "{" in
  let doc := Document empty_document in
  let copy_fails :=
    {| io_init := true; io_remote := true; io_read := true; io_copy := false;
       io_write := true; io_rename := true |} in
  let over url := {| opt_file := None; opt_autosaveInterval := None;
                     opt_databaseUrl := Some url |} in
  ¬ backs_up_as_stated DEFAULT_FILE 5 all_ok
      (boot no_options 0 {[ DEFAULT_FILE := bad;
                            corruptPath DEFAULT_FILE 5 := Corrupt "old" ]} None)
  ∧ ¬ backs_up_as_stated DEFAULT_FILE 5 copy_fails
        (boot no_options 0 {[ DEFAULT_FILE := bad ]} None)
  ∧ ¬ backs_up_as_stated DEFAULT_FILE 5 all_ok
        (boot (over {| protocol := "https"; pathname := "/settings" |}) 0
           {[ DEFAULT_FILE := bad ]} (Some empty_document))
  ∧ ¬ backs_up_as_stated "/srv/settings.json" 5 all_ok
        (boot (over {| protocol := "file"; pathname := "/srv/settings.json" |}) 0
           {[ "/srv/settings.json" := bad ]} None).
Proof.
  intros bad doc copy_fails over. split; [|split; [|split]].
  - intros (_ & _ & path & c & _ & _ & Hnone & Hdisk).
    set (files := {[ DEFAULT_FILE := bad; corruptPath DEFAULT_FILE 5 := Corrupt "old" ]}
           : gmap string content) in *.
    set (w := boot no_options 0 files None) in *.
    assert (Hfile : disk w !! file (db w) = Some (Corrupt "{"))
      by apply lookup_insert_eq.
    destruct (load_corrupt_cases 5 all_ok w "{" Hfile) as [_ Hcases].
    rewrite remote_answer_local in Hcases by done.
    destruct Hcases as (_ & _ & Hl). rewrite Hl in Hdisk. cbn [io_copy all_ok] in Hdisk.
    change (file (db w)) with DEFAULT_FILE in Hdisk.
    change (disk w) with files in Hdisk, Hnone.
    apply (f_equal (λ m, m !! path)) in Hdisk.
    rewrite lookup_insert_eq in Hdisk.
    destruct (decide (path = corruptPath DEFAULT_FILE 5)) as [->|Hne].
    + unfold files in Hnone.
      rewrite lookup_insert_ne in Hnone by (by intros ?%eq_sym%corruptPath_ne_file).
      by rewrite lookup_singleton_eq in Hnone.
    + rewrite lookup_insert_ne in Hdisk by done. congruence.
  - intros (_ & _ & path & c & _ & _ & Hnone & Hdisk).
    set (files := {[ DEFAULT_FILE := bad ]} : gmap string content) in *.
    set (w := boot no_options 0 files None) in *.
    assert (Hfile : disk w !! file (db w) = Some (Corrupt "{"))
      by apply lookup_singleton_eq.
    destruct (load_corrupt_cases 5 copy_fails w "{" Hfile) as [_ Hcases].
    rewrite remote_answer_local in Hcases by done.
    destruct Hcases as (_ & _ & Hl). rewrite Hl in Hdisk.
    cbn [io_copy copy_fails] in Hdisk.
    apply (f_equal (λ m, m !! path)) in Hdisk.
    rewrite lookup_insert_eq in Hdisk. congruence.
  - intros (Hr & _). by vm_compute in Hr.
  - intros (Hr & _). by vm_compute in Hr.
Qed.

(** ** Bootstrapping *)

Lemma save_await_unmoved o w : unmoved w (save_await o w).2.
Proof.
  unfold save_await. destruct (_saving (db w)) eqn:Hs.
  - rewrite save_while_saving by done. by repeat split.
  - destruct (save_idle w Hs) as (_ & _ & _ & Hun & j & Hj & _).
    destruct (settle_spec o (save w) j Hj) as (_ & _ & Hun' & _).
    by apply (unmoved_trans _ (save w)).
Qed.

Lemma settle_local o w tmp text :
  inflight w = Some (WritingTmp tmp text) →
  let w1 := set_inflight (Some (Renaming tmp (file (db w))))
              (set_disk (<[tmp := Document text]> (disk w)) w) in
  settle o w
  = if io_write o then
      if io_rename o then
        (Returned tt,
         save_succeeded
           (set_disk (<[file (db w) := Document text]>
                        (delete tmp (<[tmp := Document text]> (disk w)))) w1))
      else (Thrown IOError, save_failed IOError w1)
    else (Thrown IOError, save_failed IOError w).
Proof.
  intros Hj. cbv zeta. unfold settle. cbn [resume]. unfold awaited, io_done at 1.
  rewrite Hj. destruct (io_write o); [|reflexivity].
  cbn [inflight set_inflight]. unfold failed, io_done.
  cbn [inflight set_inflight disk set_disk db].
  rewrite lookup_insert_eq. by destruct (io_rename o).
Qed.

Lemma save_idle_local w :
  _saving (db w) = false → _useDb (db w) = false →
  save w
  = start (WritingTmp (file (db w) ++ ".tmp") (stringify (snapshot (db w))))
      (stringify (snapshot (db w)))
      (upd_db (set_pendingSave false) (upd_db (set_saving true) w)).
Proof. intros Hs Hd. unfold save. rewrite Hs. simpl. by rewrite Hd. Qed.

Lemma save_succeeded_fields w :
  let w' := save_succeeded w in
  db w' = (if _pendingSave (db w)
           then set_pendingSave false (set_saving false (set_dirty false (db w)))
           else set_saving false (set_dirty false (db w)))
  ∧ disk w' = disk w ∧ remote w' = remote w ∧ inflight w' = None
  ∧ emitted w' = EvSaved :: emitted w ∧ journal w' = journal w
  ∧ console w' = console w.
Proof. unfold save_succeeded; simpl. by destruct (_pendingSave (db w)). Qed.







(** ** JSON *)

Lemma json_serializable v : serializable v → json v = v.
Proof.
  revert v. fix IH 2. intros v [ | b | z | s | m Hm | l Hl]; simpl; try reflexivity.
  - f_equal. apply map_eq. intros k. rewrite lookup_omap.
    destruct (m !! k) as [x|] eqn:E; simpl; [|done].
    pose proof (IH x (Hm k x E)) as Hx.
    pose proof (Hm k x E) as Hs.
    unfold json_property. rewrite Hx. by destruct Hs.
  - f_equal. induction Hl as [|x l Hx Hl IHl]; simpl; [done|].
    f_equal; [apply IH, Hx | apply IHl].
Qed.

Lemma json_object_serializable (m : gmap string value) :
  (∀ k v, m !! k = Some v → serializable v) → json_object m = m.
Proof.
  intros Hm. pose proof (json_serializable (JObj m) (ser_obj m Hm)) as H.
  simpl in H. by injection H.
Qed.

Lemma contents_of_persisted s : contents_of (persisted s) = json_image (contents s).
Proof.
  unfold contents_of, persisted, json_image, contents; simpl.
  by rewrite <- map_fmap_compose.
Qed.

Lemma json_image_serializable s :
  serializable_settings s → json_image (contents s) = contents s.
Proof.
  intros [Hg Hgr]. unfold json_image, contents; simpl. f_equal. f_equal.
  - by apply json_object_serializable.
  - apply map_eq. intros j. rewrite !lookup_fmap.
    destruct (groupSettings s !! j) as [g|] eqn:E; simpl; [|done].
    f_equal. apply json_object_serializable. intros k v. by apply (Hgr j g k v).
Qed.

(** ** Round trip *)

#[local] Arguments current : simpl never.
#[local] Arguments stringify : simpl never.
#[local] Arguments persisted : simpl never.
#[local] Arguments capture_of : simpl never.

Lemma contents_adopt d now s : contents (adopt d now s) = contents_of d.
Proof.
  unfold contents, contents_of, adopt; simpl.
  rewrite <- map_fmap_compose. f_equal. f_equal.
  rewrite (map_fmap_ext _ id); [by rewrite map_fmap_id|done].
Qed.

Lemma load_reads_local now o w d :
  _useDb (db w) = false → disk w !! file (db w) = Some (Document d) →
  io_read o = true →
  (load now o w).1 = Returned true ∧ contents (db (load now o w).2) = contents_of d.
Proof.
  intros Hdb Hfile Hread.
  rewrite load_unfold, (fetch_remote_local o w Hdb).
  rewrite (load_local_document now o w d Hfile Hread). cbn [fst snd].
  split; [done|]. apply contents_adopt.
Qed.

Lemma remote_answer_file_backend o w u d :
  _useDb (db w) = true → databaseUrl (db w) = Some u → protocol u = "file" →
  _dbType (db w) = None ∨ _dbType (db w) = Some FileDb →
  disk w !! pathname u = Some (Document d) → io_remote o = true →
  remote_answer o w = Delivered d.
Proof.
  intros Hdb Hurl Hproto Hty Hfile Hr. destruct u as [proto path].
  open_world w. destruct o. simpl in *. subst.
  unfold remote_answer, fetch_remote, _remoteLoad, try_catch, bind, exec, ret, log,
    initClientsIfNeeded, init_finish, init_start, _initDbClients; simpl.
  destruct Hty as [->| ->]; simpl; rewrite ?Hfile; simpl; by repeat case_match.
Qed.

Lemma load_reads_file_backend now o w u d :
  _useDb (db w) = true → databaseUrl (db w) = Some u → protocol u = "file" →
  _dbType (db w) = None ∨ _dbType (db w) = Some FileDb →
  disk w !! pathname u = Some (Document d) → io_remote o = true →
  (load now o w).1 = Returned true ∧ contents (db (load now o w).2) = contents_of d.
Proof.
  intros Hdb Hurl Hproto Hty Hfile Hr.
  destruct (load_by_answer now o w) as (t & m & l & Hload). cbv zeta in Hload.
  rewrite (remote_answer_file_backend o w u d) in Hload by done.
  rewrite Hload. cbn [fst snd]. split; [done|]. apply contents_adopt.
Qed.

(** A local save that succeeds leaves the document of the Snapshot in the
    local file. *)
Lemma save_local_result o w :
  _saving (db w) = false → _useDb (db w) = false →
  (save_await o w).1 = Returned tt →
  let saved := (save_await o w).2 in
  disk saved !! file (db w) = Some (Document (persisted (db w)))
  ∧ file (db saved) = file (db w) ∧ _useDb (db saved) = false.
Proof.
  intros Hs Hdb. cbv zeta. unfold save_await. rewrite Hs.
  destruct (save_await_unmoved o w) as (_ & Hdb' & _ & Hf' & _).
  unfold save_await in Hdb', Hf'. rewrite Hs in Hdb', Hf'.
  rewrite Hdb', Hf', Hdb.
  rewrite (save_idle_local w Hs Hdb).
  erewrite settle_local by reflexivity. cbv zeta.
  rewrite stringify_snapshot.
  destruct (io_write o); [destruct (io_rename o)|]; cbn [fst snd]; try done.
  intros _.
  match goal with |- context [save_succeeded ?x] =>
    destruct (save_succeeded_fields x) as (_ & -> & _) end.
  cbn [disk set_disk db start set_journal set_inflight upd_db set_db].
  by rewrite lookup_insert_eq.
Qed.

Lemma init_start_selected w t :
  _dbType (db w) = Some t → init_start w = (InitDone, w).
Proof.
  intros Hty. unfold init_start. rewrite Hty.
  rewrite bool_decide_true by eauto. by rewrite andb_false_r.
Qed.

Lemma init_start_file w u :
  _useDb (db w) = true → databaseUrl (db w) = Some u → protocol u = "file" →
  _dbType (db w) = None ∨ _dbType (db w) = Some FileDb →
  init_start w = (InitDone, upd_db (set_dbType (Some FileDb)) w).
Proof.
  intros Hdb Hurl Hproto Hty. destruct u as [proto path].
  destruct w as [s ? ? ? ? ? ? ?]; destruct s. simpl in *. subst.
  unfold init_start, _initDbClients. by destruct Hty as [->| ->].
Qed.

(** The awaits of a save to a file backend, one by one. *)
Section file_backend.
Variables (w : world) (u : url) (c : capture).
Hypothesis Hdb : _useDb (db w) = true.
Hypothesis Hurl : databaseUrl (db w) = Some u.
Hypothesis Hty : _dbType (db w) = Some FileDb.

Lemma io_done_RemoteInit ok :
  inflight w = Some (RemoteInit c InitDone) →
  io_done ok w = (None, set_inflight (Some (RemoteSaveInit c InitDone)) w).
Proof.
  intros Hj. unfold io_done. rewrite Hj. cbn [init_finish].
  unfold _remoteSave. rewrite Hdb. cbn [negb].
  by rewrite (init_start_selected w FileDb).
Qed.

Lemma io_done_RemoteSaveInit ok :
  inflight w = Some (RemoteSaveInit c InitDone) →
  io_done ok w
  = (None, set_inflight (Some (RemotePreparing c (Some (pathname u)))) w).
Proof.
  intros Hj. unfold io_done. rewrite Hj. cbn [init_finish].
  unfold remote_write. by rewrite Hty, Hurl.
Qed.

Lemma io_done_RemotePreparing ok path :
  inflight w = Some (RemotePreparing c (Some path)) →
  io_done ok w
  = (None, start (RemoteWriting (stringify (current c (db w))) (Some path))
             (stringify (current c (db w))) w).
Proof. intros Hj. unfold io_done. by rewrite Hj. Qed.

Lemma io_done_RemoteWriting ok payload path :
  inflight w = Some (RemoteWriting payload (Some path)) →
  io_done ok w
  = if ok
    then (Some (Returned tt),
          save_succeeded (set_disk (<[path := Document payload]> (disk w)) w))
    else failed IOError w.
Proof. intros Hj. unfold io_done. by rewrite Hj. Qed.
End file_backend.

Lemma settle_file_backend o w u c :
  _useDb (db w) = true → databaseUrl (db w) = Some u →
  _dbType (db w) = Some FileDb → inflight w = Some (RemoteInit c InitDone) →
  let payload := stringify (current c (db w)) in
  let w1 := start (RemoteWriting payload (Some (pathname u))) payload w in
  settle o w
  = if io_remote o
    then (Returned tt,
          save_succeeded (set_disk (<[pathname u := Document payload]> (disk w)) w1))
    else (Thrown IOError, save_failed IOError w1).
Proof.
  intros Hdb Hurl Hty Hj. cbv zeta.
  unfold settle. cbn [resume]. unfold awaited at 1. rewrite Hj.
  rewrite (io_done_RemoteInit w c Hdb Hty _ Hj).
  cbn [inflight set_inflight]. unfold awaited at 1. cbn [inflight set_inflight].
  rewrite (io_done_RemoteSaveInit _ u c) by done.
  cbn [inflight set_inflight]. unfold awaited at 1. cbn [inflight set_inflight].
  rewrite (io_done_RemotePreparing _ c _ (pathname u)) by done.
  unfold start at 1 2. cbn [inflight set_inflight set_journal].
  unfold awaited. unfold start at 1. cbn [inflight set_inflight set_journal].
  rewrite (io_done_RemoteWriting _ _ _ (pathname u)) by done.
  by destruct (io_remote o).
Qed.

(** A save to a file backend that succeeds leaves the document of the
    Snapshot in the file that the descriptor names. *)
Lemma save_file_backend_result o w u :
  _saving (db w) = false →
  _useDb (db w) = true → databaseUrl (db w) = Some u → protocol u = "file" →
  _dbType (db w) = None ∨ _dbType (db w) = Some FileDb →
  (save_await o w).1 = Returned tt →
  let saved := (save_await o w).2 in
  disk saved !! pathname u = Some (Document (persisted (db w)))
  ∧ _useDb (db saved) = true ∧ databaseUrl (db saved) = Some u
  ∧ _dbType (db saved) = Some FileDb.
Proof.
  intros Hs Hdb Hurl Hproto Hty. cbv zeta.
  unfold save_await, save. rewrite Hs. cbn zeta.
  set (wf := upd_db (set_pendingSave false) (upd_db (set_saving true) w)).
  change (_useDb (db wf)) with (_useDb (db w)). rewrite Hdb.
  rewrite (init_start_file wf u) by done.
  set (w1 := upd_db (set_dbType (Some FileDb)) wf).
  rewrite (settle_file_backend o _ u (capture_of (db wf))) by done.
  cbn [db set_inflight].
  rewrite (current_capture_of (db wf) (db w1)) by done.
  change (persisted (db wf)) with (persisted (db w)).
  destruct (io_remote o); cbn [fst snd]; [|done]. intros _.
  match goal with |- context [save_succeeded ?x] =>
    destruct (save_succeeded_fields x) as (-> & -> & _) end.
  cbn [disk set_disk db]. rewrite lookup_insert_eq.
  split; [done|]. by destruct (_pendingSave _).
Qed.

(** Claim C5, as the code has it.  For every store that keeps its document
    in a file (the local one, or the one a file descriptor names) and has no
    save in flight, a [save] that succeeds followed by a [load], in the same
    process or in a new one with the same configuration, leaves in memory
    what JSON keeps of the Snapshot that was there before the save: the own
    properties of the settings objects, without those that hold
    [undefined], with [NaN] turned into [null].  When every stored value is
    JSON-serializable this is the Snapshot itself. *)
Theorem save_then_load_roundtrip (now t : N) (o1 o2 : io) (w : world) :
  _saving (db w) = false →
  keeps_in_files (db w) →
  (save_await o1 w).1 = Returned tt →
  io_read o2 = true → io_remote o2 = true →
  let saved := (save_await o1 w).2 in
  ∀ w', w' = saved ∨ w' = restart t saved →
    let r := load now o2 w' in
    r.1 = Returned true
    ∧ contents (db r.2) = json_image (contents (db w))
    ∧ (serializable_settings (db w) → contents (db r.2) = contents (db w)).
Proof.
  intros Hs Hkeep Hok Hread Hremote saved w' Hw'. cbv zeta.
  assert (Hgoal : (load now o2 w').1 = Returned true
                  ∧ contents (db (load now o2 w').2) = contents_of (persisted (db w))).
  { destruct Hkeep as [Hdb|(u & Hdb & Hurl & Hproto & Hty)].
    - destruct (save_local_result o1 w Hs Hdb Hok) as (Hdisk & Hfile & Hdb').
      fold saved in Hdisk, Hfile, Hdb'.
      destruct Hw' as [->| ->]; apply load_reads_local; try done.
      + by rewrite Hfile.
      + cbn [restart db disk file]. by rewrite Hfile.
    - destruct (save_file_backend_result o1 w u Hs Hdb Hurl Hproto Hty Hok)
        as (Hdisk & Hdb' & Hurl' & Hty').
      fold saved in Hdisk, Hdb', Hurl', Hty'.
      destruct Hw' as [->| ->]; apply (load_reads_file_backend _ _ _ u); try done.
      + by right.
      + by left. }
  destruct Hgoal as [Hr Hc]. rewrite contents_of_persisted in Hc.
  split; [done|]. split; [done|].
  intros Hser. by rewrite Hc, json_image_serializable.
Qed.

(** A store at which C5, as stated, fails: [set("a@b", "x")] on a new
    store leaves the group [a@b] with the property [x] holding [undefined];
    the document does not keep it, and after [save] and [load] the group has
    no property. *)
Lemma roundtrip_drops_undefined :
  let w := (invoke (SetAny "a@b" (JStr "x") JUndefined) false 1
              (boot no_options 0 ∅ None)).2 in
  ¬ roundtrip_as_stated 2 all_ok all_ok w.
Proof.
  intros w H. unfold roundtrip_as_stated in H.
  apply (f_equal (λ c, c.1.2 !! "a@b" ≫= (.!! "x"))) in H.
  vm_compute in H. discriminate.
Qed.

(** ** Unrecognized schemes *)

Lemma init_start_unsupported w u :
  _useDb (db w) = true → databaseUrl (db w) = Some u → _dbType (db w) = None →
  ¬ recognized (protocol u) →
  init_start w = (InitFailed (UnsupportedProtocol (protocol u)), w).
Proof.
  intros Hdb Hurl Hty Hrec.
  unfold init_start, _initDbClients. rewrite Hdb, Hty, Hurl.
  rewrite bool_decide_false by (by intros [? ?]). cbn [negb andb].
  unfold recognized in Hrec.
  repeat match goal with
  | |- context [String.eqb (protocol u) ?s] =>
      destruct (String.eqb_spec (protocol u) s) as [Heq|_];
      [exfalso; apply Hrec; rewrite Heq; apply (bool_decide_unpack _); by vm_compute|]
  end.
  cbn [orb]. by destruct w.
Qed.

Lemma initClients_unsupported ok w u :
  _useDb (db w) = true → databaseUrl (db w) = Some u → _dbType (db w) = None →
  ¬ recognized (protocol u) →
  initClientsIfNeeded ok w = (Thrown (UnsupportedProtocol (protocol u)), w).
Proof.
  intros Hdb Hurl Hty Hrec. unfold initClientsIfNeeded.
  by rewrite (init_start_unsupported w u).
Qed.

Lemma load_failed_logs now o e w :
  ∃ w', load_failed now o e w = (Returned false, w')
        ∧ db w' = db w ∧ LogLoadError e ∈ console w'.
Proof.
  rewrite load_failed_eq. eexists. split; [reflexivity|].
  destruct (disk w !! file (db w)); [destruct (io_copy o)|]; simpl;
    (split; [done|]); repeat first [by left | right].
Qed.

Lemma configure_databaseUrl opts w u :
  opt_databaseUrl opts = Some u →
  _useDb (db (configure opts w)) = true
  ∧ databaseUrl (db (configure opts w)) = Some u
  ∧ _dbType (db (configure opts w)) = _dbType (db w)
  ∧ _saving (db (configure opts w)) = _saving (db w).
Proof. intros H. unfold configure. rewrite H. by repeat case_match. Qed.

Lemma save_await_unsupported o w u :
  _saving (db w) = false →
  _useDb (db w) = true → databaseUrl (db w) = Some u → _dbType (db w) = None →
  ¬ recognized (protocol u) →
  (save_await o w).1 = Thrown (UnsupportedProtocol (protocol u)).
Proof.
  intros Hs Hdb Hurl Hty Hrec. unfold save_await, save. rewrite Hs. cbn zeta.
  change (_useDb (db (upd_db (set_pendingSave false) (upd_db (set_saving true) w))))
    with (_useDb (db w)). rewrite Hdb.
  rewrite (init_start_unsupported _ u) by done.
  unfold settle. cbn [resume]. unfold io_done. cbn [inflight set_inflight].
  reflexivity.
Qed.

(** Once a driver is selected it stays selected. *)
Lemma save_dbType w t :
  _dbType (db w) = Some t → _dbType (db (save w)) = Some t.
Proof.
  intros Hty. unfold save. destruct (_saving (db w)); [done|]. cbn zeta.
  destruct (_useDb _); [|done].
  by rewrite (init_start_selected _ t).
Qed.

Lemma io_done_dbType ok w t :
  _dbType (db w) = Some t → _dbType (db (io_done ok w).2) = Some t.
Proof.
  intros Hty. open_world w. simpl in Hty. subst.
  unfold io_done, _remoteSave, remote_write, send, failed,
    save_succeeded, save_failed, start, init_finish, init_start, _initDbClients.
  simpl. crunch.
  all: match goal with H : _ && false = true |- _ => by rewrite andb_false_r in H end.
Qed.

Lemma resume_dbType n o w t :
  _dbType (db w) = Some t → _dbType (db (resume n o w).2) = Some t.
Proof.
  revert w. induction n as [|n IH]; intros w Hty; [done|].
  cbn [resume]. pose proof (io_done_dbType (awaited o w) w t Hty) as H.
  destruct (io_done (awaited o w) w) as [[r|] w']; cbn [snd] in *; [done|].
  destruct (inflight w'); [by apply IH|done].
Qed.

Lemma save_await_dbType o w t :
  _dbType (db w) = Some t → _dbType (db (save_await o w).2) = Some t.
Proof.
  intros Hty. unfold save_await.
  destruct (_saving (db w)); [by apply save_dbType|].
  by apply resume_dbType, save_dbType.
Qed.

Lemma fetch_remote_dbType o w t :
  _dbType (db w) = Some t → _dbType (db (fetch_remote o w).2) = Some t.
Proof.
  intros Hty. open_world w. destruct o. simpl in Hty. subst.
  unfold fetch_remote, _remoteLoad, try_catch, bind, exec, ret, log,
    initClientsIfNeeded, init_finish, init_start, _initDbClients; simpl.
  crunch.
  all: match goal with H : _ && false = true |- _ => by rewrite andb_false_r in H end.
Qed.

Lemma load_local_dbType now o w t :
  _dbType (db w) = Some t → _dbType (db (load_local now o w).2) = Some t.
Proof.
  intros Hty. destruct (disk w !! file (db w)) as [c|] eqn:Hf.
  - unfold load_local, bind, read, file_exists, readFile, JSON_parse, populate,
      exec, ret, throw.
    rewrite Hf, bool_decide_true by eauto. cbn [negb]. rewrite Hf.
    destruct (io_read o); [|done]. destruct c; [done|].
    cbn. by rewrite on_capture_db.
  - rewrite (load_local_missing now o w Hf). cbv zeta.
    set (w0 := upd_db _ (upd_db _ (upd_db _ (on_capture freeze w)))).
    assert (H0 : _dbType (db w0) = Some t)
      by (unfold w0; simpl; by rewrite on_capture_db).
    pose proof (save_await_dbType o w0 t H0) as H.
    by destruct (save_await o w0) as [[] ?].
Qed.

Lemma load_dbType now o w t :
  _dbType (db w) = Some t → _dbType (db (load now o w).2) = Some t.
Proof.
  intros Hty. rewrite load_unfold.
  pose proof (fetch_remote_dbType o w t Hty) as H1.
  destruct (fetch_remote o w) as [[[d|]|e] w1]; cbn [snd] in *.
  - simpl. by rewrite on_capture_db.
  - pose proof (load_local_dbType now o w1 t H1) as H2.
    destruct (load_local now o w1) as [[b|e] w2]; cbn [snd] in *; [done|].
    destruct (load_failed_logs now o e w2) as (w' & -> & Hdb' & _).
    cbn [snd]. by rewrite Hdb'.
  - destruct (load_failed_logs now o e w1) as (w' & -> & Hdb' & _).
    cbn [snd]. by rewrite Hdb'.
Qed.

(** Claim C6, as the code has it.  The exported [init] is given a
    descriptor with an unrecognized scheme; it resolves normally.  On a
    store that has no driver selected, the driver initialisation raises
    "Unsupported databaseUrl protocol": [load] catches the error, logs it,
    leaves the Snapshot alone and returns false, a result that [init]
    drops; no driver is selected, so every later use of the driver raises
    the error again, and a [save] that starts a write rejects with it.  On
    a store that has a driver selected the scheme is not examined: the
    driver initialisation returns at once and the driver stays selected. *)
Theorem unsupported_scheme_fails_load_not_init (opts : options) (u : url)
    (now : N) (o : io) (w : world) :
  opt_databaseUrl opts = Some u →
  ¬ recognized (protocol u) →
  let r := init opts now o w in
  r.1 = Returned tt
  ∧ (_dbType (db w) = None →
     (load now o (configure opts w)).1 = Returned false
     ∧ LogLoadError (UnsupportedProtocol (protocol u)) ∈ console r.2
     ∧ snapshot_of (db r.2) = snapshot_of (db w)
     ∧ _dbType (db r.2) = None
     ∧ (∀ ok, (initClientsIfNeeded ok r.2).1 = Thrown (UnsupportedProtocol (protocol u)))
     ∧ (_saving (db w) = false →
        ∀ o', (save_await o' r.2).1 = Thrown (UnsupportedProtocol (protocol u))))
  ∧ (∀ t, _dbType (db w) = Some t →
     (∀ ok, initClientsIfNeeded ok (configure opts w) = (Returned tt, configure opts w))
     ∧ _dbType (db r.2) = Some t).
Proof.
  intros Hopt Hrec. cbv zeta.
  destruct (init_unfold opts now o w) as [-> ->].
  destruct (configure_databaseUrl opts w u Hopt) as (Hdb & Hurl & Hty' & Hs').
  destruct (configure_frame opts w) as (_ & _ & Hsnap).
  split; [|split].
  - by destruct (load_cases now o (configure opts w)) as [->|[-> _]].
  - intros Hty. rewrite Hty in Hty'.
    destruct (load_failed_logs now o (UnsupportedProtocol (protocol u)) (configure opts w))
      as (w' & Hfail & Hdb' & Hlog).
    assert (Hload : load now o (configure opts w) = (Returned false, w')).
    { rewrite load_unfold. unfold fetch_remote. rewrite Hdb. unfold bind.
      by rewrite (initClients_unsupported _ _ u Hdb Hurl Hty' Hrec). }
    rewrite Hload. cbn [fst snd]. rewrite Hdb'.
    repeat split; try done.
    + intros ok. erewrite initClients_unsupported; [done| | | |done]; by rewrite Hdb'.
    + intros Hs o'. apply save_await_unsupported; rewrite ?Hdb'; congruence.
  - intros t Hty. rewrite Hty in Hty'. split.
    + intros ok. unfold initClientsIfNeeded.
      by rewrite (init_start_selected _ t).
    + by apply load_dbType.
Qed.

(** [init] with the descriptor [ftp://.../settings] resolves normally, on a
    new store and on a store that has selected the file driver; on the
    latter nothing is logged, [load] returns true and the file driver
    writes the empty document to the path of the new descriptor. *)
Lemma init_resolves_on_unsupported_scheme :
  let over url := {| opt_file := None; opt_autosaveInterval := None;
                     opt_databaseUrl := Some url |} in
  let ftp := over {| protocol := "ftp"; pathname := "/settings" |} in
  let file := over {| protocol := "file"; pathname := "/srv/settings.json" |} in
  let selected := (init file 0 all_ok (boot no_options 0 ∅ None)).2 in
  (init ftp 0 all_ok (boot no_options 0 ∅ None)).1 = Returned tt
  ∧ (init ftp 1 all_ok selected).1 = Returned tt
  ∧ (load 1 all_ok (configure ftp selected)).1 = Returned true
  ∧ console (init ftp 1 all_ok selected).2 = console selected
  ∧ disk (init ftp 1 all_ok selected).2 !! "/settings"
    = Some (Document empty_document).
Proof.
  intros over ftp file selected.
  split; [by vm_compute|]. split; [by vm_compute|]. split; [by vm_compute|].
  split; by vm_compute.
Qed.

(** * Instances *)

(** The global value "YES" read through a boolean default. *)
Lemma getMultiple_resolves_witness :
  let s := set_globalSettings (plain {[ "autoread" := JStr "YES" ]})
             (new_SettingsDB no_options 0) in
  res_own (getMultiple (Some "123@g.us") ["autoread"]
             (plain {[ "autoread" := JBool false ]}) s) !! "autoread"
  = Some (Data (JBool true)).
Proof.
  intros s.
  refine (proj2 (proj2 (getMultiple_resolves s (Some "123@g.us") ["autoread"]
            (plain {[ "autoread" := JBool false ]}) "autoread" _ _)) _ "yes" "YES" _ _ _).
  - by left.
  - discriminate.
  - by vm_compute.
  - by do 2 right; left.
  - by vm_compute.
  - by vm_compute.
Defined.


(** A local file that does not parse, loaded at the clock reading 5. *)
Lemma load_backs_up_corrupt_file_witness :
  let w := boot no_options 0 {[ DEFAULT_FILE := Corrupt "{" ]} None in
  (load 5 all_ok w).1 = Returned false
  ∧ disk (load 5 all_ok w).2
    = <[corruptPath DEFAULT_FILE 5 := Corrupt "{"]> (disk w).
Proof.
  intros w.
  pose proof (load_backs_up_corrupt_file 5 all_ok w "{" (lookup_singleton_eq _ _))
    as (H & _ & _ & _ & Hlocal & _).
  rewrite (Hlocal eq_refl) in H. destruct H as (Hr & _ & Hdisk).
  split; [exact Hr|exact Hdisk].
Defined.

(** A setting saved by one process and loaded by the next. *)
Lemma save_then_load_roundtrip_witness :
  let w := (invoke (SetGlobal "autoread" (JBool true)) false 1
              (boot no_options 0 ∅ None)).2 in
  let saved := (save_await all_ok w).2 in
  (load 2 all_ok (restart 3 saved)).1 = Returned true
  ∧ contents (db (load 2 all_ok (restart 3 saved)).2) = json_image (contents (db w)).
Proof.
  intros w saved.
  assert (Hok : (save_await all_ok w).1 = Returned tt) by (by vm_compute).
  pose proof (save_then_load_roundtrip 2 3 all_ok all_ok w eq_refl
                (or_introl eq_refl) Hok eq_refl eq_refl
                (restart 3 saved) (or_intror eq_refl)) as (Hr & Hc & _).
  split; [exact Hr|exact Hc].
Defined.

(** [init] with the descriptor [ftp://.../settings] on a new store. *)
Lemma unsupported_scheme_fails_load_not_init_witness :
  let u := {| protocol := "ftp"; pathname := "/settings" |} in
  let opts := {| opt_file := None; opt_autosaveInterval := None;
                 opt_databaseUrl := Some u |} in
  let w := boot no_options 0 ∅ None in
  (init opts 0 all_ok w).1 = Returned tt
  ∧ (load 0 all_ok (configure opts w)).1 = Returned false.
Proof.
  intros u opts w.
  assert (Hrec : ¬ recognized (protocol u)).
  { intros H. unfold recognized in H.
    repeat (apply elem_of_cons in H as [H|H]; [discriminate|]).
    by apply elem_of_nil in H. }
  pose proof (unsupported_scheme_fails_load_not_init opts u 0 all_ok w eq_refl Hrec)
    as (Hinit & Hnew & _).
  split; [exact Hinit|]. exact (proj1 (Hnew eq_refl)).
Defined.

